(** * Live Share synchronization core: event scope and object synchronizer

    A shallow embedding of [LiveEventScope] and of
    [LiveObjectSynchronizer] / [ContainerSynchronizer] (TypeScript), and
    the properties of the synchronization protocol proved over it.

    Conventions of the embedding.
    - JavaScript values are the inductive [JsValue]; an object is the list
      of its own enumerable properties in enumeration order.
    - A call that may throw returns a [Completion]; mutations made before
      a throw persist, as they do in JavaScript.
    - The synchronizer is an object mutated in place: its methods are
      computations of the monad [M], which threads the synchronizer
      state, may throw, and records the calls made to the outside world
      (signals submitted, callbacks invoked, console output, timers) in a
      trace of [Effect]s.
    - The callbacks an application registers are functions of their
      arguments: what they return does not change while one synchronizer
      method runs, and they do not call back into the synchronizer.
    - [submitSignal], the telemetry logger, the console and the timers
      of the host are taken not to throw. *)

From Stdlib Require Import ZArith String List Lia.
From stdpp Require Import base gmap strings list.
Import ListNotations.

#[local] Set Warnings "-register-all".
#[local] Open Scope string_scope.
#[local] Open Scope list_scope.
#[local] Open Scope Z_scope.

(** ** JavaScript values *)

Module Js.

Inductive JsValue : Type :=
| JUndefined
| JNull
| JBool (b : bool)
| JNum (n : Z)
| JStr (s : string)
| JObj (props : list (string * JsValue)).

(** The own enumerable properties of an object, in enumeration order. *)
Abbreviation JsObject := (list (string * JsValue)).

Inductive JsType : Type :=
| TyUndefined | TyObject | TyBoolean | TyNumber | TyString.

(** [typeof v]: [null] is classified as an object. *)
Definition typeof (v : JsValue) : JsType :=
  match v with
  | JUndefined => TyUndefined
  | JNull => TyObject
  | JBool _ => TyBoolean
  | JNum _ => TyNumber
  | JStr _ => TyString
  | JObj _ => TyObject
  end.

(** [typeof v == "object"] *)
Definition typeof_is_object (v : JsValue) : bool :=
  match typeof v with
  | TyObject => true
  | _ => false
  end.

(** [o[k]] on an object: [None] stands for a missing property. *)
Fixpoint obj_get (k : string) (o : JsObject) : option JsValue :=
  match o with
  | [] => None
  | (k', v) :: rest => if String.eqb k' k then Some v else obj_get k rest
  end.

(** [o[k] = v]: an existing property keeps its place, a new one is
    added last. *)
Fixpoint obj_set (k : string) (v : JsValue) (o : JsObject) : JsObject :=
  match o with
  | [] => [(k, v)]
  | (k', v') :: rest =>
      if String.eqb k' k then (k', v) :: rest
      else (k', v') :: obj_set k v rest
  end.

(** [Object.keys(o)] *)
Definition obj_keys (o : JsObject) : list string := map fst o.

(** The keys a [for (const id in v)] loop visits: the properties of an
    object, none for [null] and [undefined]. The code only loops over a
    value whose [typeof] is ["object"], so the primitives do not matter. *)
Definition for_in_keys (v : JsValue) : list string :=
  match v with
  | JObj props => obj_keys props
  | _ => []
  end.

(** [v[k]] for a key [k] visited by [for ... in]. *)
Definition get_prop (v : JsValue) (k : string) : JsValue :=
  match v with
  | JObj props => default JUndefined (obj_get k props)
  | _ => JUndefined
  end.

(** The result of a call: a value, or a thrown error (its
    [toString()]). *)
Inductive Completion (A : Type) : Type :=
| Normal (a : A)
| Throw (err : string).
Arguments Normal {A} a.
Arguments Throw {A} err.

End Js.
Import Js.

(** ** Carrier interfaces *)

(** [IInboundSignalMessage]: [{type, clientId: string | null, content: any}] *)
Record IInboundSignalMessage : Type := {
  msg_type : string;
  msg_clientId : option string;
  msg_content : JsValue
}.

(** What the code reads of an [IRuntimeSignaler] at the time of a call;
    [clientId] is undefined while disconnected. *)
Module IRuntimeSignaler.
Record t : Type := {
  clientId : option string;
  connected : bool
}.
End IRuntimeSignaler.

(** Runtimes and container runtimes are objects held by reference:
    the code compares container runtimes by identity, and reads
    [connected] from the runtime it was given when it was built. *)
Abbreviation RuntimeRef := nat.
Abbreviation ContainerRuntimeRef := nat.

(** The runtime objects as they are when a method runs. *)
Abbreviation Runtimes := (RuntimeRef -> IRuntimeSignaler.t).

(** ** Roles, role verification and the freshness rule *)

Module LiveEvent.

(** Modelled from the spec: the enumeration [UserMeetingRole], whose
    declaration is not among the sources at hand. The spec gives the
    labels Organizer, Presenter, Attendee and Guest. *)
Inductive UserMeetingRole : Type :=
| Organizer | Presenter | Attendee | Guest.

#[global] Instance UserMeetingRole_eq_dec : EqDecision UserMeetingRole.
Proof. solve_decision. Defined.

(** Modelled from the spec: [LiveEvent.verifyRolesAllowed], called by
    the event scope but defined in a file that is not among the sources
    at hand. It answers true if [allowed] is empty, otherwise whether
    [allowed] meets the roles of the client; the role lookup
    [getRolesForClient] is asynchronous and may fail, which rejects the
    promise ([Throw]). *)
Definition verifyRolesAllowed
    (getRolesForClient : string -> Completion (list UserMeetingRole))
    (clientId : string) (allowed : list UserMeetingRole) : Completion bool :=
  match allowed with
  | [] => Normal true
  | _ :: _ =>
      match getRolesForClient clientId with
      | Normal roles =>
          Normal (existsb (fun role => bool_decide (role ∈ roles)) allowed)
      | Throw err => Throw err
      end
  end.

(** Modelled from the spec: the part of an envelope the freshness rule
    reads. Envelopes whose [clientId] is null are dropped on the inbound
    path, so the ones the rule compares carry a string. *)
Record ILiveEvent : Type := {
  name : string;
  clientId : string;
  timestamp : Z
}.

(** [a > b] on strings: lexicographic order of the character codes. *)
Definition string_gtb (a b : string) : bool :=
  match String.compare a b with
  | Gt => true
  | _ => false
  end.

(** Modelled from the spec: the freshness rule, whose code
    ([LiveEvent.isNewer]) is not among the sources at hand. [a] is newer
    than [b] iff [a.timestamp > b.timestamp], or the timestamps are
    equal and [a.clientId > b.clientId]. *)
Definition newer (a b : ILiveEvent) : bool :=
  (timestamp b <? timestamp a)
  || ((timestamp a =? timestamp b) && string_gtb (clientId a) (clientId b)).

(** [a ≡ b]: the two envelopes carry the same (timestamp, clientId). *)
Definition same_key (a b : ILiveEvent) : Prop :=
  timestamp a = timestamp b /\ clientId a = clientId b.

End LiveEvent.

(** ** The event scope *)

Module LiveEventScope.

Import LiveEvent.

(** A listener: a function object (compared by identity, hence the
    [listener_id]) called with [(evt, local)]. *)
Record LiveEventListener : Type := {
  listener_id : nat;
  listener_fn : JsValue -> bool -> Completion unit
}.

(** The fields of a [LiveEventScope]; [emitter] is the list of the
    listeners of the private emitter, each under its event name, in the
    order they were added. *)
Record t : Type := {
  emitter : list (string * LiveEventListener);
  _runtime : RuntimeRef;
  _allowedRoles : list UserMeetingRole
}.

(** What goes to the telemetry logger as the error of an event. *)
Inductive LoggedError : Type :=
| RoleNotAllowed (clientId : string) (allowedRoles : list UserMeetingRole)
| Rejected (err : string).

Inductive Effect : Type :=
| ListenerCalled (eventName : string) (listener : nat) (evt : JsValue)
                 (local : bool)
| SendErrorEvent (eventName : string) (error : LoggedError)
| SubmitSignal (type : string) (content : JsValue).

(** [new LiveEventScope(runtime, allowedRoles)]; an absent
    [allowedRoles] is the empty list. The first listener of the emitter
    is the one the constructor adds under ["error"], [forwardError],
    which re-emits the error on the scope itself. *)
Definition constructor (runtime : RuntimeRef)
    (allowedRoles : option (list UserMeetingRole))
    (forwardError : LiveEventListener) : t :=
  {| emitter := [("error", forwardError)]; _runtime := runtime;
     _allowedRoles := default [] allowedRoles |}.

(** The setter of [allowedRoles]. *)
Definition set_allowedRoles (values : list UserMeetingRole) (this : t) : t :=
  {| emitter := emitter this; _runtime := _runtime this;
     _allowedRoles := values |}.

(** [onEvent(eventName, listener)] *)
Definition onEvent (eventName : string) (listener : LiveEventListener)
    (this : t) : t :=
  {| emitter := emitter this ++ [(eventName, listener)];
     _runtime := _runtime this; _allowedRoles := _allowedRoles this |}.

(** Whether [entry] is the function [listener] added under [eventName]. *)
Definition is_listener (eventName : string) (listener : LiveEventListener)
    (entry : string * LiveEventListener) : bool :=
  String.eqb entry.1 eventName
  && Nat.eqb (listener_id entry.2) (listener_id listener).

(** [l] without the first element that satisfies [p]. *)
Fixpoint remove_first {A} (p : A -> bool) (l : list A) : list A :=
  match l with
  | [] => []
  | x :: rest => if p x then rest else x :: remove_first p rest
  end.

(** [offEvent(eventName, listener)]: the emitter drops one instance of
    the listener under the name, the one added last, if there is any. *)
Definition offEvent (eventName : string) (listener : LiveEventListener)
    (this : t) : t :=
  {| emitter :=
       rev (remove_first (is_listener eventName listener) (rev (emitter this)));
     _runtime := _runtime this; _allowedRoles := _allowedRoles this |}.

(** The listeners added under [eventName], in the order they were
    added. *)
Definition listeners_of (eventName : string)
    (listeners : list (string * LiveEventListener)) : list LiveEventListener :=
  omap (fun entry : string * LiveEventListener =>
          if String.eqb entry.1 eventName then Some entry.2 else None)
       listeners.

(** [emitter.emit(eventName, evt, local)]: the listeners of the name
    are called in the order they were added; a listener that throws
    ends the call. *)
Fixpoint emit (listeners : list (string * LiveEventListener))
    (eventName : string) (evt : JsValue) (local : bool)
    : Completion unit * list Effect :=
  match listeners with
  | [] => (Normal tt, [])
  | (n, l) :: rest =>
      if String.eqb n eventName then
        let call := ListenerCalled eventName (listener_id l) evt local in
        match listener_fn l evt local with
        | Normal _ =>
            match emit rest eventName evt local with
            | (r, tr) => (r, call :: tr)
            end
        | Throw err => (Throw err, [call])
        end
      else emit rest eventName evt local
  end.

(** [null] or the string, as a JavaScript value. *)
Definition js_of_clientId (clientId : option string) : JsValue :=
  match clientId with
  | Some c => JStr c
  | None => JNull
  end.

Section SignalListener.

(** [LiveEvent.verifyRolesAllowed]: the outcome of its promise. *)
Variable verifyRolesAllowed :
  string -> list UserMeetingRole -> Completion bool.

(** The listener of the runtime's ["signal"] event, together with the
    [then] and [catch] of the promise it starts. It returns the
    message as the listener leaves it: [message.content] is written
    in place. Writing a property of a content that is no object
    throws a [TypeError]. *)
Definition onSignal (runtimes : Runtimes) (this : t)
    (message : IInboundSignalMessage) (local : bool)
    : Completion unit * IInboundSignalMessage * list Effect :=
  let clientId := msg_clientId message in
  match msg_content message with
  | JObj props =>
      let content := JObj (obj_set "clientId" (js_of_clientId clientId) props) in
      let message :=
        {| msg_type := msg_type message; msg_clientId := clientId;
           msg_content := content |} in
      match IRuntimeSignaler.connected (runtimes (_runtime this)), clientId with
      | true, Some clientId =>
          match verifyRolesAllowed clientId (_allowedRoles this) with
          | Normal true =>
              match emit (emitter this) (msg_type message) content local with
              | (Normal _, tr) => (Normal tt, message, tr)
              | (Throw err, tr) =>
                  (Normal tt, message,
                   tr ++ [SendErrorEvent "SharedEvent:invalidRole" (Rejected err)])
              end
          | Normal false =>
              (Normal tt, message,
               [SendErrorEvent "SharedEvent:invalidRole"
                  (RoleNotAllowed clientId (_allowedRoles this))])
          | Throw err =>
              (Normal tt, message,
               [SendErrorEvent "SharedEvent:invalidRole" (Rejected err)])
          end
      | _, _ => (Normal tt, message, [])
      end
  | _ => (Throw "TypeError", message, [])
  end.

End SignalListener.

(** [undefined] or the string, as a JavaScript value. *)
Definition js_of_runtime_clientId (clientId : option string) : JsValue :=
  match clientId with
  | Some c => JStr c
  | None => JUndefined
  end.

(** [sendEvent(eventName, evt)]; [now] is [LiveEvent.getTimestamp()]. *)
Definition sendEvent (runtimes : Runtimes) (now : Z) (this : t)
    (eventName : string) (evt : JsObject) : JsValue * list Effect :=
  let clone :=
    JObj (obj_set "timestamp" (JNum now)
           (obj_set "name" (JStr eventName)
             (obj_set "clientId"
                (js_of_runtime_clientId
                   (IRuntimeSignaler.clientId (runtimes (_runtime this))))
                evt))) in
  (clone, [SubmitSignal eventName clone]).

(** The listeners an event is delivered to: those called with it. *)
Definition delivered (tr : list Effect) : list (nat * JsValue * bool) :=
  omap (fun e => match e with
                 | ListenerCalled _ l evt local => Some (l, evt, local)
                 | _ => None
                 end) tr.

End LiveEventScope.

(** ** The per-container synchronizer *)

Module ContainerSynchronizer.

Definition CONNECT_EVENT : string := "connect".
Definition UPDATE_EVENT : string := "update".

(** [GetAndUpdateStateHandlers]: the pair of callbacks of one object.
    [senderId] is [message.clientId!], whatever the carrier put there. *)
Record GetAndUpdateStateHandlers : Type := {
  getState : bool -> Completion JsValue;
  updateState : bool -> JsValue -> option string -> Completion unit
}.

(** The handle of the running update timer. *)
Record Timer : Type := { interval : Z }.

(** The private fields of [ContainerSynchronizer]. *)
Record t : Type := mk {
  _runtime : RuntimeRef;
  _containerRuntime : ContainerRuntimeRef;
  _objects : gmap string GetAndUpdateStateHandlers;
  _unconnectedKeys : list string;
  _connectedKeys : list string;
  _refCount : Z;
  _hTimer : option Timer
}.

(** [new ContainerSynchronizer(runtime, containerRuntime)]; the
    listeners it subscribes are [onConnected] and [onSignal] below. *)
Definition new (runtime : RuntimeRef) (containerRuntime : ContainerRuntimeRef) : t :=
  {| _runtime := runtime; _containerRuntime := containerRuntime;
     _objects := ∅; _unconnectedKeys := []; _connectedKeys := [];
     _refCount := 0; _hTimer := None |}.

Definition set_objects (o : gmap string GetAndUpdateStateHandlers) (s : t) : t :=
  {| _runtime := _runtime s; _containerRuntime := _containerRuntime s;
     _objects := o; _unconnectedKeys := _unconnectedKeys s;
     _connectedKeys := _connectedKeys s; _refCount := _refCount s;
     _hTimer := _hTimer s |}.
Definition set_unconnectedKeys (l : list string) (s : t) : t :=
  {| _runtime := _runtime s; _containerRuntime := _containerRuntime s;
     _objects := _objects s; _unconnectedKeys := l;
     _connectedKeys := _connectedKeys s; _refCount := _refCount s;
     _hTimer := _hTimer s |}.
Definition set_connectedKeys (l : list string) (s : t) : t :=
  {| _runtime := _runtime s; _containerRuntime := _containerRuntime s;
     _objects := _objects s; _unconnectedKeys := _unconnectedKeys s;
     _connectedKeys := l; _refCount := _refCount s; _hTimer := _hTimer s |}.
Definition set_refCount (n : Z) (s : t) : t :=
  {| _runtime := _runtime s; _containerRuntime := _containerRuntime s;
     _objects := _objects s; _unconnectedKeys := _unconnectedKeys s;
     _connectedKeys := _connectedKeys s; _refCount := n;
     _hTimer := _hTimer s |}.
Definition set_hTimer (h : option Timer) (s : t) : t :=
  {| _runtime := _runtime s; _containerRuntime := _containerRuntime s;
     _objects := _objects s; _unconnectedKeys := _unconnectedKeys s;
     _connectedKeys := _connectedKeys s; _refCount := _refCount s;
     _hTimer := h |}.

(** What a method does to the outside world. *)
Inductive Effect : Type :=
| SubmitSignal (type : string) (content : JsValue)
| GetStateCalled (id : string) (connecting : bool)
| UpdateStateCalled (id : string) (connecting : bool) (state : JsValue)
                    (senderId : option string)
| ConsoleError (message : string)
| SetInterval (ms : Z)
| ClearInterval (handle : option Timer).

(** *** The monad of synchronizer methods *)

Definition M (A : Type) : Type := t -> Completion A * t * list Effect.

Definition ret {A} (a : A) : M A := fun s => (Normal a, s, []).

Definition bind {A B} (m : M A) (k : A -> M B) : M B := fun s =>
  match m s with
  | (Normal a, s1, t1) =>
      match k a s1 with
      | (r, s2, t2) => (r, s2, t1 ++ t2)
      end
  | (Throw e, s1, t1) => (Throw e, s1, t1)
  end.

Definition throw {A} (e : string) : M A := fun s => (Throw e, s, []).

(** [try { m } catch (err) { h err }] *)
Definition try_catch {A} (m : M A) (h : string -> M A) : M A := fun s =>
  match m s with
  | (Normal a, s1, t1) => (Normal a, s1, t1)
  | (Throw e, s1, t1) =>
      match h e s1 with
      | (r, s2, t2) => (r, s2, t1 ++ t2)
      end
  end.

Definition gets {A} (f : t -> A) : M A := fun s => (Normal (f s), s, []).
Definition modify (f : t -> t) : M unit := fun s => (Normal tt, f s, []).
Definition tell (e : Effect) : M unit := fun s => (Normal tt, s, [e]).

(** The completion of an external call, lifted into the monad. *)
Definition lift {A} (c : Completion A) : M A := fun s => (c, s, []).

Notation "x <- m ;; k" := (bind m (fun x => k))
  (at level 100, m at next level, right associativity).
Notation "m ;;; k" := (bind m (fun _ => k))
  (at level 100, right associativity).

(** A loop over [l] that updates the local variable [acc]. *)
Fixpoint for_each {A B} (l : list A) (acc : B) (body : B -> A -> M B) : M B :=
  match l with
  | [] => ret acc
  | x :: rest => acc' <- body acc x ;; for_each rest acc' body
  end.

Definition result {A} (r : Completion A * t * list Effect) : Completion A :=
  r.1.1.
Definition state {A} (r : Completion A * t * list Effect) : t := r.1.2.
Definition trace {A} (r : Completion A * t * list Effect) : list Effect := r.2.

(** The signals of a trace, in the order they were submitted. *)
Fixpoint signals (tr : list Effect) : list (string * JsValue) :=
  match tr with
  | [] => []
  | SubmitSignal ty c :: rest => (ty, c) :: signals rest
  | _ :: rest => signals rest
  end.

(** *** Methods *)

(** [handlers.getState(connecting)] of object [id] *)
Definition call_getState (id : string) (handlers : GetAndUpdateStateHandlers)
    (connecting : bool) : M JsValue :=
  tell (GetStateCalled id connecting) ;;;
  lift (getState handlers connecting).

(** [handlers.updateState(connecting, state, senderId)] of object [id] *)
Definition call_updateState (id : string) (handlers : GetAndUpdateStateHandlers)
    (connecting : bool) (st : JsValue) (senderId : option string) : M unit :=
  tell (UpdateStateCalled id connecting st senderId) ;;;
  lift (updateState handlers connecting st senderId).

(** [sendGroupEvent(keys, evt)] *)
Definition sendGroupEvent (keys : list string) (evt : string) : M unit :=
  updates <- for_each keys ([] : JsObject) (fun updates id =>
    try_catch
      (handlers <- gets (fun s => _objects s !! id) ;;
       st <- match handlers with
             | Some h => call_getState id h false
             | None => ret JUndefined
             end ;;
       if typeof_is_object st then ret (obj_set id st updates)
       else ret updates)
      (fun err =>
         tell (ConsoleError
                 ("LiveObjectSynchronizer: error getting an objects state - "
                  +:+ err)) ;;;
         ret updates)) ;;
  if (0 <? Z.of_nat (length (obj_keys updates))) then
    tell (SubmitSignal evt (JObj updates))
  else ret tt.

(** [dispatchUpdates(senderId, updates, connecting)] *)
Definition dispatchUpdates (senderId : option string) (updates : JsValue)
    (connecting : bool) : M unit :=
  keys <- for_each (for_in_keys updates) ([] : list string) (fun keys id =>
    handlers <- gets (fun s => _objects s !! id) ;;
    match handlers with
    | Some h =>
        (* [keys.push(id)] comes first, so it survives a throw *)
        let keys := keys ++ [id] in
        try_catch
          (let st := get_prop updates id in
           (if typeof_is_object st
            then call_updateState id h connecting st senderId
            else ret tt) ;;;
           ret keys)
          (fun err =>
             tell (ConsoleError
                     ("LiveObjectSynchronizer: error processing received update - "
                      +:+ err)) ;;;
             ret keys)
    | None => ret keys
    end) ;;
  if connecting then sendGroupEvent keys UPDATE_EVENT else ret tt.

(** The listener of the runtime's ["connected"] event. *)
Definition onConnected : M unit :=
  unconnected <- gets _unconnectedKeys ;;
  if (0 <? Z.of_nat (length unconnected)) then
    sendGroupEvent unconnected CONNECT_EVENT ;;;
    modify (fun s => set_connectedKeys (_connectedKeys s ++ _unconnectedKeys s) s) ;;;
    modify (set_unconnectedKeys [])
  else ret tt.

(** The listener of the container runtime's ["signal"] event. *)
Definition onSignal (message : IInboundSignalMessage) (local : bool) : M unit :=
  if negb local && typeof_is_object (msg_content message) then
    if String.eqb (msg_type message) CONNECT_EVENT then
      dispatchUpdates (msg_clientId message) (msg_content message) true
    else if String.eqb (msg_type message) UPDATE_EVENT then
      dispatchUpdates (msg_clientId message) (msg_content message) false
    else ret tt
  else ret tt.

(** The callback of the update timer. *)
Definition onTimer : M unit :=
  try_catch
    (keys <- gets _connectedKeys ;; sendGroupEvent keys UPDATE_EVENT)
    (fun err =>
       tell (ConsoleError
               ("LiveObjectSynchronizer: error sending update - " +:+ err))).

(** [registerObject(id, handlers)]; [updateInterval] is the static
    [LiveObjectSynchronizer.updateInterval] when the method runs. *)
Definition registerObject (runtimes : Runtimes) (updateInterval : Z)
    (id : string) (handlers : GetAndUpdateStateHandlers) : M unit :=
  objs <- gets _objects ;;
  if decide (is_Some (objs !! id)) then
    throw ("LiveObjectSynchronizer: too many calls to registerObject() for object '"
           +:+ id +:+ "'")
  else
    modify (fun s => set_objects (<[id := handlers]> (_objects s)) s) ;;;
    isConnected <- gets (fun s => IRuntimeSignaler.connected (runtimes (_runtime s))) ;;
    (if isConnected then
       st <- call_getState id handlers true ;;
       tell (SubmitSignal CONNECT_EVENT (JObj [(id, st)])) ;;;
       modify (fun s => set_connectedKeys (_connectedKeys s ++ [id]) s)
     else
       modify (fun s => set_unconnectedKeys (_unconnectedKeys s ++ [id]) s)) ;;;
    refCount <- gets _refCount ;;
    modify (set_refCount (refCount + 1)) ;;;
    if (refCount =? 0) then
      tell (SetInterval updateInterval) ;;;
      modify (set_hTimer (Some {| interval := updateInterval |}))
    else ret tt.

(** [unregisterObject(id)] *)
Definition unregisterObject (id : string) : M bool :=
  objs <- gets _objects ;;
  if decide (is_Some (objs !! id)) then
    modify (fun s => set_objects (delete id (_objects s)) s) ;;;
    refCount <- gets _refCount ;;
    modify (set_refCount (refCount - 1)) ;;;
    if (refCount - 1 =? 0) then
      h <- gets _hTimer ;;
      tell (ClearInterval h) ;;;
      modify (set_hTimer None) ;;;
      ret true
    else
      modify (fun s =>
        set_connectedKeys (filter (fun key => key ≠ id) (_connectedKeys s)) s) ;;;
      modify (fun s =>
        set_unconnectedKeys (filter (fun key => key ≠ id) (_unconnectedKeys s)) s) ;;;
      ret false
  else ret false.

(** A trace of polling: calls to [getState(false)] and console
    output, no signal and no call to [updateState]. *)
Definition polling_only (tr : list Effect) : Prop :=
  Forall (fun e => match e with
                   | GetStateCalled _ false | ConsoleError _ => True
                   | _ => False
                   end) tr.

(** *** The payload of an update, as a function of the registered objects

    The definitions below are not methods of the class: they say what an
    update carries, and the properties relate [sendGroupEvent] and
    [dispatchUpdates] to them. *)

(** The state object [id] reports in an update: what its
    [getState(false)] returns, provided the object is registered, the
    call does not throw and the result is of type object. *)
Definition reported (objs : gmap string GetAndUpdateStateHandlers)
    (id : string) : option JsValue :=
  match objs !! id with
  | Some h =>
      match getState h false with
      | Normal st => if typeof_is_object st then Some st else None
      | Throw _ => None
      end
  | None => None
  end.

(** One more key added to the coalesced payload [updates]. *)
Definition coalesce_one (objs : gmap string GetAndUpdateStateHandlers)
    (updates : JsObject) (id : string) : JsObject :=
  match reported objs id with
  | Some st => obj_set id st updates
  | None => updates
  end.

(** The coalesced payload of the keys [keys]: [{id: state}] for the
    keys that report a state. *)
Definition coalesced (objs : gmap string GetAndUpdateStateHandlers)
    (keys : list string) : JsObject :=
  fold_left (coalesce_one objs) keys [].

(** The ids of an incoming payload that are registered here. *)
Definition recognized (objs : gmap string GetAndUpdateStateHandlers)
    (updates : JsValue) : list string :=
  filter (fun id => is_Some (objs !! id)) (for_in_keys updates).

End ContainerSynchronizer.

(** ** The per-object facade and the registry of synchronizers *)

Module LiveObjectSynchronizer.

Import ContainerSynchronizer.

(** The static members of the class: [updateInterval] and the map
    [_synchronizers], keyed by the identity of the container runtime.
    A synchronizer in the map is the object itself: what a method does
    to it is seen through the map. *)
Record Statics : Type := {
  updateInterval : Z;
  _synchronizers : gmap ContainerRuntimeRef ContainerSynchronizer.t
}.

Definition initial : Statics :=
  {| updateInterval := 5000; _synchronizers := ∅ |}.

Definition set_synchronizers
    (m : gmap ContainerRuntimeRef ContainerSynchronizer.t) (st : Statics)
    : Statics :=
  {| updateInterval := updateInterval st; _synchronizers := m |}.

(** The fields of one [LiveObjectSynchronizer]. *)
Record t : Type := {
  _id : string;
  _containerRuntime : ContainerRuntimeRef;
  _isDisposed : bool
}.

(** [LiveObjectSynchronizer.registerObject(runtime, containerRuntime,
    id, handlers)] *)
Definition registerObject (runtimes : Runtimes) (runtime : RuntimeRef)
    (containerRuntime : ContainerRuntimeRef) (id : string)
    (handlers : GetAndUpdateStateHandlers) (st : Statics)
    : Completion unit * Statics * list Effect :=
  (* Get/create containers synchronizer *)
  let synchronizer :=
    match _synchronizers st !! containerRuntime with
    | Some synchronizer => synchronizer
    | None => ContainerSynchronizer.new runtime containerRuntime
    end in
  (* Register object *)
  match ContainerSynchronizer.registerObject runtimes (updateInterval st)
          id handlers synchronizer with
  | (r, synchronizer', tr) =>
      (r, set_synchronizers
            (<[containerRuntime := synchronizer']> (_synchronizers st)) st, tr)
  end.

(** [LiveObjectSynchronizer.unregisterObject(containerRuntime, id)] *)
Definition unregisterObject (containerRuntime : ContainerRuntimeRef)
    (id : string) (st : Statics) : Completion unit * Statics * list Effect :=
  match _synchronizers st !! containerRuntime with
  | Some synchronizer =>
      match ContainerSynchronizer.unregisterObject id synchronizer with
      | (Normal true, _, tr) =>
          (Normal tt,
           set_synchronizers (delete containerRuntime (_synchronizers st)) st, tr)
      | (Normal false, synchronizer', tr) =>
          (Normal tt,
           set_synchronizers
             (<[containerRuntime := synchronizer']> (_synchronizers st)) st, tr)
      | (Throw e, synchronizer', tr) =>
          (Throw e,
           set_synchronizers
             (<[containerRuntime := synchronizer']> (_synchronizers st)) st, tr)
      end
  | None => (Normal tt, st, [])
  end.

(** [new LiveObjectSynchronizer(id, runtime, containerRuntime, getState,
    updateState)]: no object is built when the registration throws. *)
Definition constructor (runtimes : Runtimes) (id : string)
    (runtime : RuntimeRef) (containerRuntime : ContainerRuntimeRef)
    (getState : bool -> Completion JsValue)
    (updateState : bool -> JsValue -> option string -> Completion unit)
    (st : Statics) : Completion t * Statics * list Effect :=
  match registerObject runtimes runtime containerRuntime id
          {| ContainerSynchronizer.getState := getState;
             ContainerSynchronizer.updateState := updateState |} st with
  | (Normal _, st', tr) =>
      (Normal {| _id := id; _containerRuntime := containerRuntime;
                 _isDisposed := false |}, st', tr)
  | (Throw e, st', tr) => (Throw e, st', tr)
  end.

(** [dispose()], returning the object as it is afterwards. *)
Definition dispose (this : t) (st : Statics) : t * Statics * list Effect :=
  if negb (_isDisposed this) then
    match unregisterObject (_containerRuntime this) (_id this) st with
    | (_, st', tr) =>
        ({| _id := _id this; _containerRuntime := _containerRuntime this;
            _isDisposed := true |}, st', tr)
    end
  else (this, st, []).

End LiveObjectSynchronizer.

(** ** A page: the registry and the facades built so far *)

Module Page.

Import ContainerSynchronizer.

(** The static members of [LiveObjectSynchronizer] together with the
    [LiveObjectSynchronizer] objects built so far, in the order they were
    built. A facade is an object: disposing it changes it in place. *)
Record t : Type := {
  statics : LiveObjectSynchronizer.Statics;
  facades : list LiveObjectSynchronizer.t
}.

Definition initial : t :=
  {| statics := LiveObjectSynchronizer.initial; facades := [] |}.


(** The keys of a synchronizer, connected and pending. *)
Definition keys (s : ContainerSynchronizer.t) : list string :=
  _connectedKeys s ++ _unconnectedKeys s.






End Page.

(** ** The notifications of the sample application *)

Module LiveNotifications.

(** [interface Notification] *)
Record Notification : Type := {
  id : string;
  text : string
}.

(** [arr.findIndex(p)]: the index of the first element that satisfies
    [p], or -1. *)
Fixpoint findIndex {A} (p : A -> bool) (arr : list A) : Z :=
  match arr with
  | [] => -1
  | x :: rest =>
      if p x then 0
      else let i := findIndex p rest in
           if i <? 0 then -1 else i + 1
  end.

(** [arr.splice(start, 1)] for an index [start] of the array: the array
    without the element at [start]. *)
Definition splice_one {A} (start : nat) (arr : list A) : list A :=
  take start arr ++ drop (S start) arr.

(** The component keeps the notifications twice: in [notificationsRef]
    and in the state [notifications] that is rendered. *)
Record t : Type := {
  notificationsRef : list Notification;
  notifications : list Notification
}.

(** The effect that runs when [notificationToDisplay] changes, up to the
    timer it sets. [notificationId] is the identifier the effect draws at
    random. An undefined or empty text is not displayed. *)
Definition display (notificationToDisplay : option string)
    (notificationId : string) (st : t) : t :=
  match notificationToDisplay with
  | Some txt =>
      if String.eqb txt "" then st
      else
        let updatedNotifications :=
          notificationsRef st ++ [{| id := notificationId; text := txt |}] in
        {| notificationsRef := updatedNotifications;
           notifications := updatedNotifications |}
  | None => st
  end.

(** The callback of the timer set for [notificationId]. *)
Definition expire (notificationId : string) (st : t) : t :=
  let resetNotifications := notificationsRef st in
  let matchIndex :=
    findIndex (fun notification => String.eqb (id notification) notificationId)
      resetNotifications in
  if 0 <=? matchIndex then
    let resetNotifications := splice_one (Z.to_nat matchIndex) resetNotifications in
    {| notificationsRef := resetNotifications;
       notifications := resetNotifications |}
  else st.

End LiveNotifications.

(** ** The inking controls of the sample application *)

Module InkingControls.

Section OnSelectTool.

(** [InkingTool], an enumeration of the canvas package. *)
Context {InkingTool : Type} `{EqDecision InkingTool}.

(** What [onSelectTool] reads and writes: the tool of the inking
    manager, and the states [selectedTool] and [isEnabled]. *)
Record t : Type := {
  inkingManager_tool : InkingTool;
  selectedTool : InkingTool;
  isEnabled : bool
}.

(** [onSelectTool(tool)]; both tests read the [selectedTool] and
    [isEnabled] the callback was built with. *)
Definition onSelectTool (tool : InkingTool) (st : t) : t :=
  let st1 :=
    if decide (tool ≠ selectedTool st) then
      {| inkingManager_tool := tool; selectedTool := tool;
         isEnabled := isEnabled st |}
    else st in
  {| inkingManager_tool := inkingManager_tool st1;
     selectedTool := selectedTool st1;
     isEnabled :=
       if isEnabled st && bool_decide (tool = selectedTool st) then false
       else true |}.

End OnSelectTool.

Arguments t InkingTool : clear implicits.

End InkingControls.

(** ** Example objects and states *)

Module Examples.

Import ContainerSynchronizer.

(** Every runtime connected; every runtime disconnected. *)
Definition all_connected : Runtimes := fun _ =>
  {| IRuntimeSignaler.clientId := Some "local";
     IRuntimeSignaler.connected := true |}.
Definition all_disconnected : Runtimes := fun _ =>
  {| IRuntimeSignaler.clientId := None;
     IRuntimeSignaler.connected := false |}.

(** The state [{v: n}]. *)
Definition v_ (n : Z) : JsValue := JObj [("v", JNum n)].

(** An object whose [getState] always returns [st] and whose
    [updateState] accepts everything. *)
Definition returning (st : JsValue) : GetAndUpdateStateHandlers :=
  {| getState := fun _ => Normal st;
     updateState := fun _ _ _ => Normal tt |}.

(** An object whose [getState] throws. *)
Definition throwing : GetAndUpdateStateHandlers :=
  {| getState := fun _ => Throw "Error: not ready";
     updateState := fun _ _ _ => Normal tt |}.

(** A synchronizer on which [o1] and [o2] were registered while
    connected. *)
Definition with_o1_o2 (h1 h2 : GetAndUpdateStateHandlers) : t :=
  {| _runtime := 0%nat; _containerRuntime := 0%nat;
     _objects := <["o1" := h1]> (<["o2" := h2]> ∅);
     _unconnectedKeys := []; _connectedKeys := ["o1"; "o2"];
     _refCount := 2; _hTimer := Some {| interval := 5000 |} |}.

(** A listener that accepts every event. *)
Definition accepting (id : nat) : LiveEventScope.LiveEventListener :=
  {| LiveEventScope.listener_id := id;
     LiveEventScope.listener_fn := fun _ _ => Normal tt |}.

(** A scope open to every role, with one listener of ["transport"]. *)
Definition open_scope : LiveEventScope.t :=
  LiveEventScope.onEvent "transport" (accepting 1)
    (LiveEventScope.constructor 0%nat None (accepting 0)).

(** No client has a role. *)
Definition no_roles : string -> Completion (list LiveEvent.UserMeetingRole) :=
  fun _ => Normal [].

(** A ["transport"] event sent by [sender] whose payload claims to come
    from ["forged"]. *)
Definition transport_from (sender : string) : IInboundSignalMessage :=
  {| msg_type := "transport"; msg_clientId := Some sender;
     msg_content := JObj [("clientId", JStr "forged"); ("position", JNum 3)] |}.

End Examples.

(** ** More example objects *)

Module Scenarios.

(** A listener that throws. *)
Definition failing (id : nat) : LiveEventScope.LiveEventListener :=
  {| LiveEventScope.listener_id := id;
     LiveEventScope.listener_fn := fun _ _ => Throw "Error: listener" |}.

(** A scope open to every role with three listeners of ["transport"],
    the second of which throws. *)
Definition scope_with_failing_listener : LiveEventScope.t :=
  LiveEventScope.onEvent "transport" (Examples.accepting 3)
    (LiveEventScope.onEvent "transport" (failing 2) Examples.open_scope).

(** The page after a first facade, for [o1], was built on container 0
    while connected. *)
Definition page_with_o1 : Page.t :=
  match LiveObjectSynchronizer.constructor Examples.all_connected "o1"
          0%nat 0%nat (fun _ => Normal (Examples.v_ 1))
          (fun _ _ _ => Normal tt) (Page.statics Page.initial) with
  | (Normal f, st, _) =>
      {| Page.statics := st; Page.facades := Page.facades Page.initial ++ [f] |}
  | (Throw _, st, _) =>
      {| Page.statics := st; Page.facades := Page.facades Page.initial |}
  end.

(** Three notifications on display. *)
Definition three_notifications : LiveNotifications.t :=
  LiveNotifications.display (Some "c") "notification3"
    (LiveNotifications.display (Some "b") "notification2"
       (LiveNotifications.display (Some "a") "notification1"
          {| LiveNotifications.notificationsRef := [];
             LiveNotifications.notifications := [] |})).

End Scenarios.

(** * Properties *)

Import ContainerSynchronizer.

(** ** Objects *)

Lemma obj_get_set_eq (k : string) (v : JsValue) (o : JsObject) :
  obj_get k (obj_set k v o) = Some v.
Proof.
  induction o as [|[k' v'] o IH]; simpl.
  - by rewrite String.eqb_refl.
  - destruct (String.eqb k' k) eqn:E; simpl; rewrite E; [done | apply IH].
Qed.

Lemma obj_get_set_ne (k k' : string) (v : JsValue) (o : JsObject) :
  k ≠ k' -> obj_get k' (obj_set k v o) = obj_get k' o.
Proof.
  intros Hne. induction o as [|[k0 v0] o IH]; simpl.
  - apply String.eqb_neq in Hne. by rewrite Hne.
  - destruct (String.eqb k0 k) eqn:E; simpl.
    + apply String.eqb_eq in E. subst k0.
      apply String.eqb_neq in Hne. by rewrite Hne.
    + by rewrite IH.
Qed.

Lemma obj_set_not_nil (k : string) (v : JsValue) (o : JsObject) :
  obj_set k v o ≠ [].
Proof. destruct o as [|[k' v'] o]; simpl; [done | by destruct (String.eqb k' k)]. Qed.

(** ** Loops *)

(** A loop whose body neither throws nor touches the synchronizer is a
    left fold; what holds of the trace of every iteration, of the empty
    trace and of concatenations holds of the trace of the loop. *)
Lemma for_each_run {A B} (body : B -> A -> M B) (f : B -> A -> B)
    (P : list Effect -> Prop) (s : ContainerSynchronizer.t) :
  (forall acc x, exists tr, body acc x s = (Normal (f acc x), s, tr) /\ P tr) ->
  P [] ->
  (forall t1 t2, P t1 -> P t2 -> P (t1 ++ t2)) ->
  forall l acc, exists tr,
    for_each l acc body s = (Normal (fold_left f l acc), s, tr) /\ P tr.
Proof.
  intros Hbody Hnil Happ l. induction l as [|x l IH]; intros acc; simpl.
  - exists []. by split.
  - destruct (Hbody acc x) as (t1 & E1 & P1).
    destruct (IH (f acc x)) as (t2 & E2 & P2).
    exists (t1 ++ t2). unfold bind. rewrite E1, E2. auto.
Qed.


Lemma signals_app (t1 t2 : list Effect) :
  signals (t1 ++ t2) = signals t1 ++ signals t2.
Proof.
  induction t1 as [|e t1 IH]; simpl; [done|].
  destruct e; simpl; by rewrite ?IH.
Qed.

(** ** Sending a group event *)

Lemma polling_only_signals (tr : list Effect) :
  polling_only tr -> signals tr = [].
Proof.
  induction 1 as [|e tr He _ IH]; simpl; [done|].
  destruct e; simpl; try done.
Qed.

Lemma sendGroupEvent_run (keys : list string) (evt : string)
    (s : ContainerSynchronizer.t) :
  exists tr,
    polling_only tr
    /\ sendGroupEvent keys evt s
       = (Normal tt, s,
          tr ++ match coalesced (_objects s) keys with
                | [] => []
                | _ :: _ => [SubmitSignal evt (JObj (coalesced (_objects s) keys))]
                end).
Proof.
  unfold sendGroupEvent, bind at 1.
  match goal with
  | |- context [for_each keys ?a ?b s] =>
      destruct (for_each_run b (coalesce_one (_objects s)) polling_only s)
        with (l := keys) (acc := a) as (tr & E & Htr)
  end.
  - intros updates id.
    unfold try_catch, bind, gets, call_getState, tell, lift, ret,
      coalesce_one, reported. simpl.
    destruct (_objects s !! id) as [h|]; simpl.
    + destruct (getState h false) as [st|err]; simpl.
      * destruct (typeof_is_object st); eexists; split; try reflexivity;
          repeat constructor.
      * eexists; split; [reflexivity|]. repeat constructor.
    + eexists; split; [reflexivity|]. constructor.
  - constructor.
  - intros t1 t2. apply Forall_app_2.
  - exists tr. split; [done|]. rewrite E. fold (coalesced (_objects s) keys).
    destruct (coalesced (_objects s) keys) as [|p u]; simpl.
    + unfold ret. by rewrite app_nil_r.
    + unfold tell. done.
Qed.

(** ** Unregistering and registering *)

(** C10. [unregisterObject] with an id that is not registered returns
    false, does nothing to the outside world, and leaves the synchronizer
    as it was: objects, both key lists, the reference count and the timer. *)
Theorem unregisterObject_unknown_id (s : ContainerSynchronizer.t) (id : string) :
  _objects s !! id = None ->
  unregisterObject id s = (Normal false, s, []).
Proof.
  intros Hnone. unfold unregisterObject, bind, gets. simpl.
  destruct (decide (is_Some (_objects s !! id))) as [Hsome|_]; [|done].
  rewrite Hnone in Hsome. by destruct Hsome.
Qed.

Lemma unregisterObject_unknown_id_witness :
  unregisterObject "o3" (Examples.with_o1_o2 (Examples.returning JNull) Examples.throwing)
  = (Normal false,
     Examples.with_o1_o2 (Examples.returning JNull) Examples.throwing, []).
Proof. apply unregisterObject_unknown_id. reflexivity. Defined.

Lemma registerObject_duplicate (runtimes : Runtimes) (updateInterval : Z)
    (s : ContainerSynchronizer.t) (id : string)
    (handlers : GetAndUpdateStateHandlers) :
  is_Some (_objects s !! id) ->
  registerObject runtimes updateInterval id handlers s
  = (Throw ("LiveObjectSynchronizer: too many calls to registerObject() for object '"
            +:+ id +:+ "'"), s, []).
Proof.
  intros Hsome. unfold registerObject, bind, gets. simpl.
  by destruct (decide (is_Some (_objects s !! id))).
Qed.

(** C6. While an object is registered under [id] with the synchronizer of
    a container, building a second [LiveObjectSynchronizer] for the same
    container and id throws at once; nothing is sent or scheduled, and the
    registry is as before: the synchronizer of the container keeps its
    objects, key lists, reference count and timer. *)
Theorem constructor_duplicate_registration
    (runtimes : Runtimes) (st : LiveObjectSynchronizer.Statics)
    (synchronizer : ContainerSynchronizer.t)
    (id : string) (runtime : RuntimeRef) (containerRuntime : ContainerRuntimeRef)
    (getState : bool -> Completion JsValue)
    (updateState : bool -> JsValue -> option string -> Completion unit) :
  LiveObjectSynchronizer._synchronizers st !! containerRuntime = Some synchronizer ->
  is_Some (_objects synchronizer !! id) ->
  exists err,
    LiveObjectSynchronizer.constructor runtimes id runtime containerRuntime
      getState updateState st
    = (Throw err, st, [])
    /\ LiveObjectSynchronizer._synchronizers st !! containerRuntime
       = Some synchronizer.
Proof.
  intros Hreg Hdup. eexists. split; [|exact Hreg].
  unfold LiveObjectSynchronizer.constructor, LiveObjectSynchronizer.registerObject.
  rewrite Hreg, (registerObject_duplicate _ _ _ _ _ Hdup).
  rewrite (insert_id _ _ _ Hreg). by destruct st.
Qed.

Lemma constructor_duplicate_registration_witness :
  let synchronizer :=
    Examples.with_o1_o2 (Examples.returning (Examples.v_ 1)) Examples.throwing in
  let st :=
    {| LiveObjectSynchronizer.updateInterval := 5000;
       LiveObjectSynchronizer._synchronizers := {[ 0%nat := synchronizer ]} |} in
  exists err,
    LiveObjectSynchronizer.constructor Examples.all_connected "o1" 0%nat 0%nat
      (fun _ => Normal JNull) (fun _ _ _ => Normal tt) st
    = (Throw err, st, [])
    /\ LiveObjectSynchronizer._synchronizers st !! 0%nat = Some synchronizer.
Proof.
  apply constructor_duplicate_registration; [reflexivity|].
  exists (Examples.returning (Examples.v_ 1)). reflexivity.
Defined.




(** ** The coalesced payload *)

Section Coalesced.

Variable objs : gmap string GetAndUpdateStateHandlers.

Lemma coalesce_keeps (keys : list string) (acc : JsObject) (id : string)
    (st : JsValue) :
  reported objs id = Some st ->
  obj_get id acc = Some st ->
  obj_get id (fold_left (coalesce_one objs) keys acc) = Some st.
Proof.
  intros Hrep. revert acc. induction keys as [|x keys IH]; intros acc Hacc.
  - done.
  - simpl. apply IH. unfold coalesce_one.
    destruct (reported objs x) as [w|] eqn:Hx; [|done].
    destruct (decide (x = id)) as [->|Hne].
    + rewrite Hrep in Hx. injection Hx as ->. apply obj_get_set_eq.
    + by rewrite obj_get_set_ne.
Qed.

Lemma coalesce_complete (keys : list string) (acc : JsObject) (id : string)
    (st : JsValue) :
  id ∈ keys ->
  reported objs id = Some st ->
  obj_get id (fold_left (coalesce_one objs) keys acc) = Some st.
Proof.
  intros Hin Hrep. revert acc.
  induction keys as [|x keys IH]; intros acc.
  - by apply elem_of_nil in Hin.
  - simpl. apply elem_of_cons in Hin as [<-|Hin]; [|by apply IH].
    apply coalesce_keeps; [done|].
    unfold coalesce_one. rewrite Hrep. apply obj_get_set_eq.
Qed.

Lemma coalesce_sound (keys : list string) (acc : JsObject) (id : string)
    (st : JsValue) :
  obj_get id (fold_left (coalesce_one objs) keys acc) = Some st ->
  obj_get id acc = Some st \/ (id ∈ keys /\ reported objs id = Some st).
Proof.
  revert acc. induction keys as [|x keys IH]; intros acc Hget.
  - by left.
  - simpl in Hget. destruct (IH _ Hget) as [Hacc|[Hin Hrep]].
    + unfold coalesce_one in Hacc.
      destruct (reported objs x) as [w|] eqn:Hx; [|by left].
      destruct (decide (x = id)) as [->|Hne].
      * rewrite obj_get_set_eq in Hacc. injection Hacc as ->.
        right. split; [apply elem_of_cons; by left | done].
      * rewrite obj_get_set_ne in Hacc by done. by left.
    + right. split; [apply elem_of_cons; by right | done].
Qed.

Lemma coalesce_nil (keys : list string) (acc : JsObject) :
  fold_left (coalesce_one objs) keys acc = [] <->
  acc = [] /\ forall id, id ∈ keys -> reported objs id = None.
Proof.
  revert acc. induction keys as [|x keys IH]; intros acc; simpl.
  - split; [intros ->; split; [done|] | by intros [-> _]].
    intros id Hin. by apply elem_of_nil in Hin.
  - rewrite IH. unfold coalesce_one. split.
    + intros [Hacc Hrest]. destruct (reported objs x) as [w|] eqn:Hx.
      { by apply obj_set_not_nil in Hacc. }
      split; [done|]. intros id Hin.
      apply elem_of_cons in Hin as [->|Hin]; auto.
    + intros [-> Hall]. rewrite (Hall x) by (apply elem_of_cons; by left).
      split; [done|]. intros id Hin. apply Hall, elem_of_cons. by right.
Qed.

(** The coalesced payload holds [id] exactly when [id] is one of the
    keys and reports a state, and then it holds that state. *)
Lemma coalesced_lookup (keys : list string) (id : string) (st : JsValue) :
  obj_get id (coalesced objs keys) = Some st <->
  id ∈ keys /\ reported objs id = Some st.
Proof.
  unfold coalesced. split.
  - intros Hget. by destruct (coalesce_sound _ _ _ _ Hget).
  - intros [Hin Hrep]. by apply coalesce_complete.
Qed.

Lemma coalesced_nil (keys : list string) :
  coalesced objs keys = [] <->
  forall id, id ∈ keys -> reported objs id = None.
Proof. unfold coalesced. rewrite coalesce_nil. by split; [intros [_ H] | ]. Qed.

Lemma reported_registered (id : string) (st : JsValue) :
  reported objs id = Some st ->
  exists h, objs !! id = Some h /\ getState h false = Normal st
            /\ typeof_is_object st = true.
Proof.
  unfold reported. destruct (objs !! id) as [h|] eqn:Hh; [|done].
  destruct (getState h false) as [v|] eqn:Hget; [|done].
  destruct (typeof_is_object v) eqn:Hty; [|done].
  intros [= <-]. by exists h.
Qed.


End Coalesced.

(** ** The update timer *)

Lemma onTimer_run (s : ContainerSynchronizer.t) :
  exists tr,
    polling_only tr
    /\ onTimer s
       = (Normal tt, s,
          tr ++ match coalesced (_objects s) (_connectedKeys s) with
                | [] => []
                | _ :: _ =>
                    [SubmitSignal UPDATE_EVENT
                       (JObj (coalesced (_objects s) (_connectedKeys s)))]
                end).
Proof.
  destruct (sendGroupEvent_run (_connectedKeys s) UPDATE_EVENT s)
    as (tr & Htr & E).
  exists tr. split; [done|].
  unfold onTimer, try_catch, bind, gets. simpl. by rewrite E.
Qed.

Lemma onTimer_signals (s : ContainerSynchronizer.t) :
  signals (trace (onTimer s))
  = match coalesced (_objects s) (_connectedKeys s) with
    | [] => []
    | _ :: _ =>
        [(UPDATE_EVENT, JObj (coalesced (_objects s) (_connectedKeys s)))]
    end.
Proof.
  destruct (onTimer_run s) as (tr & Htr & ->). unfold trace. simpl.
  rewrite signals_app, (polling_only_signals _ Htr). simpl.
  by destruct (coalesced (_objects s) (_connectedKeys s)).
Qed.

(** C5. A tick of the update timer submits at most one signal, an update,
    however many objects are registered; it submits none when the
    coalesced payload is empty, which is the case when no key of
    [connectedKeys] has a [getState(false)] returning anything but
    [undefined]; and the tick leaves the synchronizer as it was. *)
Theorem onTimer_at_most_one_update (s : ContainerSynchronizer.t) :
  let r := onTimer s in
  (length (signals (trace r)) <= 1)%nat
  /\ (forall sig, sig ∈ signals (trace r) -> sig.1 = UPDATE_EVENT)
  /\ (coalesced (_objects s) (_connectedKeys s) = [] -> signals (trace r) = [])
  /\ ((forall id h st, id ∈ _connectedKeys s -> _objects s !! id = Some h ->
         getState h false = Normal st -> st = JUndefined) ->
      signals (trace r) = [])
  /\ result r = Normal tt
  /\ state r = s.
Proof.
  intros r. subst r. rewrite onTimer_signals.
  destruct (onTimer_run s) as (tr & Htr & E).
  repeat split.
  - destruct (coalesced _ _); simpl; lia.
  - intros sig. destruct (coalesced _ _); simpl.
    + by intros ?%elem_of_nil.
    + by intros ->%list_elem_of_singleton.
  - by intros ->.
  - intros Hnone.
    assert (coalesced (_objects s) (_connectedKeys s) = []) as ->; [|done].
    apply coalesced_nil. intros id Hin.
    destruct (reported (_objects s) id) as [st|] eqn:Hrep; [|done].
    destruct (reported_registered _ _ _ Hrep) as (h & Hh & Hget & Hty).
    rewrite (Hnone id h st Hin Hh Hget) in Hty. done.
  - by rewrite E.
  - by rewrite E.
Qed.






(** ** Incoming signals *)


Lemma fold_recognized (objs : gmap string GetAndUpdateStateHandlers)
    (l acc : list string) :
  fold_left (fun keys id => match objs !! id with
                            | Some _ => keys ++ [id]
                            | None => keys
                            end) l acc
  = acc ++ filter (fun id => is_Some (objs !! id)) l.
Proof.
  revert acc. induction l as [|x l IH]; intros acc; simpl.
  - by rewrite app_nil_r.
  - rewrite IH. rewrite filter_cons.
    destruct (objs !! x) as [h|] eqn:Hx.
    + rewrite decide_True by eauto. by rewrite <- app_assoc.
    + rewrite decide_False; [done|]. by intros [? ?].
Qed.









(** ** The event scope *)

Lemma emit_delivers_the_event (listeners : list (string * LiveEventScope.LiveEventListener))
    (eventName : string) (evt : JsValue) (local : bool)
    (l : nat) (e : JsValue) (loc : bool) :
  (l, e, loc) ∈ LiveEventScope.delivered
                  (LiveEventScope.emit listeners eventName evt local).2 ->
  e = evt /\ loc = local.
Proof.
  induction listeners as [|[n x] listeners IH]; simpl.
  - by intros ?%elem_of_nil.
  - destruct (String.eqb n eventName); [|done].
    destruct (LiveEventScope.listener_fn x evt local) as [[]|err].
    + destruct (LiveEventScope.emit listeners eventName evt local) as [r tr].
      simpl in *. intros [Heq|Hin]%elem_of_cons; [by injection Heq as -> -> ->|].
      by apply IH.
    + simpl. intros [Heq|Hin]%elem_of_cons; [by injection Heq as -> -> ->|].
      by apply elem_of_nil in Hin.
Qed.

Lemma delivered_app (t1 t2 : list LiveEventScope.Effect) :
  LiveEventScope.delivered (t1 ++ t2)
  = LiveEventScope.delivered t1 ++ LiveEventScope.delivered t2.
Proof. apply omap_app. Qed.

(** A listener of the event name is called unless a listener of that name
    added before it throws. *)
Lemma emit_reaches (before after : list (string * LiveEventScope.LiveEventListener))
    (eventName : string) (l : LiveEventScope.LiveEventListener)
    (evt : JsValue) (local : bool) :
  (forall l', (eventName, l') ∈ before ->
              LiveEventScope.listener_fn l' evt local = Normal tt) ->
  (LiveEventScope.listener_id l, evt, local)
    ∈ LiveEventScope.delivered
        (LiveEventScope.emit (before ++ (eventName, l) :: after)
           eventName evt local).2.
Proof.
  induction before as [|[n x] before IH]; intros Hok; simpl.
  - rewrite String.eqb_refl.
    destruct (LiveEventScope.listener_fn l evt local) as [[]|err].
    + destruct (LiveEventScope.emit after eventName evt local) as [r tr].
      simpl. apply elem_of_cons. by left.
    + simpl. apply elem_of_cons. by left.
  - assert (forall l', (eventName, l') ∈ before ->
              LiveEventScope.listener_fn l' evt local = Normal tt) as Hrest.
    { intros l' Hin. apply Hok, elem_of_cons. by right. }
    specialize (IH Hrest).
    destruct (String.eqb n eventName) eqn:E; [|done].
    apply String.eqb_eq in E. subst n.
    rewrite (Hok x) by (apply elem_of_cons; by left).
    destruct (LiveEventScope.emit _ eventName evt local) as [r tr].
    simpl in *. apply elem_of_cons. by right.
Qed.

(** C3. Whatever the role check answers, an event a listener of the scope
    is called with carries, as its [clientId], the client id the carrier
    put on the message: the message had one, and it replaced whatever
    [clientId] the payload came with. *)
Theorem delivered_clientId_is_the_carriers
    (verifyRolesAllowed : string -> list LiveEvent.UserMeetingRole -> Completion bool)
    (runtimes : Runtimes) (scope : LiveEventScope.t)
    (message : IInboundSignalMessage) (local : bool)
    (l : nat) (evt : JsValue) (loc : bool) :
  (l, evt, loc)
    ∈ LiveEventScope.delivered
        (LiveEventScope.onSignal verifyRolesAllowed runtimes scope message local).2 ->
  exists clientId props,
    msg_clientId message = Some clientId
    /\ evt = JObj props
    /\ obj_get "clientId" props = Some (JStr clientId)
    /\ loc = local.
Proof.
  unfold LiveEventScope.onSignal.
  destruct (msg_content message) as [| | | | |props];
    try (by intros ?%elem_of_nil).
  destruct (IRuntimeSignaler.connected _); [|by intros ?%elem_of_nil].
  destruct (msg_clientId message) as [cid|]; [|by intros ?%elem_of_nil].
  destruct (verifyRolesAllowed cid _) as [[]|err]; simpl.
  - destruct (LiveEventScope.emit _ _ _ _) as [[[]|err] tr] eqn:E; simpl.
    + intros Hin. exists cid, (obj_set "clientId" (JStr cid) props).
      pose proof (emit_delivers_the_event (LiveEventScope.emitter scope)
                    (msg_type message)
                    (JObj (obj_set "clientId" (JStr cid) props))
                    local l evt loc) as Hemit.
      rewrite E in Hemit. destruct (Hemit Hin) as [-> ->].
      by rewrite obj_get_set_eq.
    + rewrite delivered_app. simpl. rewrite app_nil_r.
      intros Hin. exists cid, (obj_set "clientId" (JStr cid) props).
      pose proof (emit_delivers_the_event (LiveEventScope.emitter scope)
                    (msg_type message)
                    (JObj (obj_set "clientId" (JStr cid) props))
                    local l evt loc) as Hemit.
      rewrite E in Hemit. destruct (Hemit Hin) as [-> ->].
      by rewrite obj_get_set_eq.
  - by intros ?%elem_of_nil.
  - by intros ?%elem_of_nil.
Qed.

Lemma delivered_clientId_is_the_carriers_witness :
  exists clientId props,
    msg_clientId (Examples.transport_from "A") = Some clientId
    /\ JObj [("clientId", JStr "A"); ("position", JNum 3)] = JObj props
    /\ obj_get "clientId" props = Some (JStr clientId)
    /\ false = false.
Proof.
  apply (delivered_clientId_is_the_carriers
           (LiveEvent.verifyRolesAllowed Examples.no_roles)
           Examples.all_connected Examples.open_scope
           (Examples.transport_from "A") false 1%nat).
  vm_compute. apply elem_of_cons. by left.
Defined.

(** C2, as the code has it. On a scope whose [allowedRoles] is empty, an
    incoming event whose carrier-supplied client id is not null and which
    arrives while the runtime is connected passes the role check and is
    emitted under its event name: the listeners of that name are called,
    in the order they were added, with the event and the [local] flag,
    each of them unless a listener before it throws. *)
Theorem onSignal_no_roles_delivers
    (getRolesForClient : string -> Completion (list LiveEvent.UserMeetingRole))
    (runtimes : Runtimes) (scope : LiveEventScope.t)
    (message : IInboundSignalMessage) (local : bool)
    (clientId : string) (props : JsObject) :
  LiveEventScope._allowedRoles scope = [] ->
  IRuntimeSignaler.connected (runtimes (LiveEventScope._runtime scope)) = true ->
  msg_clientId message = Some clientId ->
  msg_content message = JObj props ->
  let evt := JObj (obj_set "clientId" (JStr clientId) props) in
  let r := LiveEventScope.onSignal
             (LiveEvent.verifyRolesAllowed getRolesForClient)
             runtimes scope message local in
  LiveEvent.verifyRolesAllowed getRolesForClient clientId
    (LiveEventScope._allowedRoles scope) = Normal true
  /\ LiveEventScope.delivered r.2
     = LiveEventScope.delivered
         (LiveEventScope.emit (LiveEventScope.emitter scope)
            (msg_type message) evt local).2
  /\ (forall before l after,
        LiveEventScope.emitter scope = before ++ (msg_type message, l) :: after ->
        (forall l', (msg_type message, l') ∈ before ->
                    LiveEventScope.listener_fn l' evt local = Normal tt) ->
        (LiveEventScope.listener_id l, evt, local) ∈ LiveEventScope.delivered r.2).
Proof.
  intros Hroles Hconn Hcid Hcontent evt r.
  assert (LiveEventScope.delivered r.2
          = LiveEventScope.delivered
              (LiveEventScope.emit (LiveEventScope.emitter scope)
                 (msg_type message) evt local).2) as Hdel.
  { subst r evt. unfold LiveEventScope.onSignal.
    rewrite Hcontent, Hconn, Hcid, Hroles. simpl.
    destruct (LiveEventScope.emit _ _ _ _) as [[[]|err] tr]; simpl; [done|].
    rewrite delivered_app. simpl. by rewrite app_nil_r. }
  split; [by rewrite Hroles|]. split; [done|].
  intros before l after Hsplit Hok. rewrite Hdel, Hsplit.
  by apply emit_reaches.
Qed.

Lemma onSignal_no_roles_delivers_witness :
  let evt := JObj (obj_set "clientId" (JStr "A")
                     [("clientId", JStr "forged"); ("position", JNum 3)]) in
  let r := LiveEventScope.onSignal
             (LiveEvent.verifyRolesAllowed Examples.no_roles)
             Examples.all_connected Examples.open_scope
             (Examples.transport_from "A") false in
  LiveEvent.verifyRolesAllowed Examples.no_roles "A"
    (LiveEventScope._allowedRoles Examples.open_scope) = Normal true
  /\ LiveEventScope.delivered r.2
     = LiveEventScope.delivered
         (LiveEventScope.emit (LiveEventScope.emitter Examples.open_scope)
            (msg_type (Examples.transport_from "A")) evt false).2
  /\ (forall before l after,
        LiveEventScope.emitter Examples.open_scope
        = before ++ (msg_type (Examples.transport_from "A"), l) :: after ->
        (forall l', (msg_type (Examples.transport_from "A"), l') ∈ before ->
                    LiveEventScope.listener_fn l' evt false = Normal tt) ->
        (LiveEventScope.listener_id l, evt, false) ∈ LiveEventScope.delivered r.2).
Proof.
  apply (onSignal_no_roles_delivers Examples.no_roles Examples.all_connected
           Examples.open_scope (Examples.transport_from "A") false "A"
           [("clientId", JStr "forged"); ("position", JNum 3)]);
    reflexivity.
Defined.

(** C2 as the spec words it fails: the scope has no role restriction and
    the event has a sender, yet while the runtime is not connected the
    listener of the event name is not called. *)
Lemma onSignal_no_roles_dropped_while_disconnected :
  let r := LiveEventScope.onSignal
             (LiveEvent.verifyRolesAllowed Examples.no_roles)
             Examples.all_disconnected Examples.open_scope
             (Examples.transport_from "A") false in
  LiveEventScope._allowedRoles Examples.open_scope = []
  /\ msg_clientId (Examples.transport_from "A") = Some "A"
  /\ LiveEventScope.emitter Examples.open_scope
     = [("error", Examples.accepting 0); ("transport", Examples.accepting 1)]
  /\ LiveEventScope.delivered r.2 = [].
Proof. vm_compute. repeat split. Qed.

(** ** The freshness rule *)

Lemma ascii_compare_refl (c : Ascii.ascii) : Ascii.compare c c = Eq.
Proof. unfold Ascii.compare. apply N.compare_refl. Qed.

Lemma string_compare_refl (a : string) : String.compare a a = Eq.
Proof.
  induction a as [|c a IH]; simpl; [done|]. by rewrite ascii_compare_refl.
Qed.

Lemma string_compare_gt_trans (a b c : string) :
  String.compare a b = Gt -> String.compare b c = Gt -> String.compare a c = Gt.
Proof.
  revert b c. induction a as [|x a IH]; intros [|y b] [|z c]; simpl; try done.
  destruct (Ascii.compare x y) eqn:Hxy; try done;
    destruct (Ascii.compare y z) eqn:Hyz; try done.
  - apply Ascii.compare_eq_iff in Hxy, Hyz. subst.
    rewrite ascii_compare_refl. apply IH.
  - apply Ascii.compare_eq_iff in Hxy. subst. by rewrite Hyz.
  - apply Ascii.compare_eq_iff in Hyz. subst. by rewrite Hxy.
  - unfold Ascii.compare in *. rewrite N.compare_gt_iff in Hxy, Hyz.
    assert ((Ascii.N_of_ascii x ?= Ascii.N_of_ascii z)%N = Gt) as ->; [|done].
    apply N.compare_gt_iff. lia.
Qed.

Lemma string_gtb_asym (a b : string) :
  LiveEvent.string_gtb a b = true -> LiveEvent.string_gtb b a = false.
Proof.
  unfold LiveEvent.string_gtb. rewrite (String.compare_antisym b a).
  by destruct (String.compare a b).
Qed.

Lemma string_gtb_trans (a b c : string) :
  LiveEvent.string_gtb a b = true -> LiveEvent.string_gtb b c = true ->
  LiveEvent.string_gtb a c = true.
Proof.
  unfold LiveEvent.string_gtb.
  destruct (String.compare a b) eqn:Hab; try done.
  destruct (String.compare b c) eqn:Hbc; try done.
  by rewrite (string_compare_gt_trans a b c).
Qed.

Lemma string_gtb_total (a b : string) :
  LiveEvent.string_gtb a b = true \/ LiveEvent.string_gtb b a = true \/ a = b.
Proof.
  unfold LiveEvent.string_gtb. rewrite (String.compare_antisym b a).
  destruct (String.compare a b) eqn:Hab; simpl; auto.
  right. right. by apply String.compare_eq_iff.
Qed.

Lemma string_gtb_irrefl (a : string) : LiveEvent.string_gtb a a = false.
Proof. unfold LiveEvent.string_gtb. by rewrite string_compare_refl. Qed.

Lemma newer_spec (a b : LiveEvent.ILiveEvent) :
  LiveEvent.newer a b = true <->
  LiveEvent.timestamp b < LiveEvent.timestamp a
  \/ (LiveEvent.timestamp a = LiveEvent.timestamp b
      /\ LiveEvent.string_gtb (LiveEvent.clientId a) (LiveEvent.clientId b) = true).
Proof.
  unfold LiveEvent.newer.
  rewrite orb_true_iff, andb_true_iff, Z.ltb_lt, Z.eqb_eq. done.
Qed.

Lemma newer_asym (a b : LiveEvent.ILiveEvent) :
  LiveEvent.newer a b = true -> LiveEvent.newer b a = false.
Proof.
  intros Hab. apply not_true_is_false. intros Hba.
  apply newer_spec in Hab, Hba.
  destruct Hab as [Hab|[Hab Gab]], Hba as [Hba|[Hba Gba]]; try lia.
  apply string_gtb_asym in Gab. congruence.
Qed.

(** C8. [newer] is a strict total order on the (timestamp, clientId) of
    envelopes: no two envelopes are each newer than the other (so it is
    antisymmetric), it is transitive, and of [newer a b], [newer b a] and
    [a ≡ b] exactly one holds; with equal timestamps 1000, the envelope of
    client ["B"] is newer than that of client ["A"]. *)
Theorem newer_total_order :
  (forall a b, LiveEvent.newer a b = true -> LiveEvent.newer b a = false)
  /\ (forall a b, LiveEvent.newer a b = true -> LiveEvent.newer b a = true ->
                  LiveEvent.same_key a b)
  /\ (forall a b c, LiveEvent.newer a b = true -> LiveEvent.newer b c = true ->
                    LiveEvent.newer a c = true)
  /\ (forall a b,
        (LiveEvent.newer a b = true /\ LiveEvent.newer b a = false
         /\ ~ LiveEvent.same_key a b)
        \/ (LiveEvent.newer a b = false /\ LiveEvent.newer b a = true
            /\ ~ LiveEvent.same_key a b)
        \/ (LiveEvent.newer a b = false /\ LiveEvent.newer b a = false
            /\ LiveEvent.same_key a b))
  /\ (forall na nb,
        let a := {| LiveEvent.name := na; LiveEvent.clientId := "A";
                    LiveEvent.timestamp := 1000 |} in
        let b := {| LiveEvent.name := nb; LiveEvent.clientId := "B";
                    LiveEvent.timestamp := 1000 |} in
        LiveEvent.newer b a = true /\ LiveEvent.newer a b = false).
Proof.
  assert (forall a b, LiveEvent.same_key a b -> LiveEvent.newer a b = false)
    as Hsame.
  { intros a b [Ht Hc]. apply not_true_is_false. intros Hab.
    apply newer_spec in Hab as [Hab|[_ Hab]]; [lia|].
    rewrite Hc, string_gtb_irrefl in Hab. done. }
  split; [exact newer_asym|]. split; [|split; [|split]].
  - intros a b Hab Hba. apply newer_asym in Hab. congruence.
  - intros a b c Hab Hbc. apply newer_spec in Hab, Hbc. apply newer_spec.
    destruct Hab as [Hab|[Hab Gab]], Hbc as [Hbc|[Hbc Gbc]];
      [left; lia | left; lia | left; lia |].
    right. split; [lia|]. by apply string_gtb_trans with (LiveEvent.clientId b).
  - intros a b.
    destruct (LiveEvent.newer a b) eqn:Hab.
    { left. split; [done|]. split; [by apply newer_asym|].
      intros Hs. apply Hsame in Hs. congruence. }
    destruct (LiveEvent.newer b a) eqn:Hba.
    { right. left. split; [done|]. split; [done|].
      intros [Ht Hc]. rewrite (Hsame b a) in Hba; [done | by split]. }
    right. right. split; [done|]. split; [done|].
    apply not_true_iff_false in Hab, Hba. rewrite newer_spec in Hab, Hba.
    assert (LiveEvent.timestamp a = LiveEvent.timestamp b) as Ht by lia.
    split; [done|].
    destruct (string_gtb_total (LiveEvent.clientId a) (LiveEvent.clientId b))
      as [G|[G|G]]; [| |done].
    + destruct Hab. by right.
    + destruct Hba. by right.
  - intros na nb. by vm_compute.
Qed.

(** ** Scenarios *)

(** Pong on join: a peer that tracks [o1 = {v: 2}] receives a connect
    carrying [{o1: {v: 1}}]; it applies the state and answers at once
    with an update carrying [{o1: {v: 2}}]. *)
Example pong_on_join :
  let s :=
    {| _runtime := 0%nat; _containerRuntime := 0%nat;
       _objects := {[ "o1" := Examples.returning (Examples.v_ 2) ]};
       _unconnectedKeys := []; _connectedKeys := ["o1"];
       _refCount := 1; _hTimer := Some {| interval := 5000 |} |} in
  let message :=
    {| msg_type := "connect"; msg_clientId := Some "newPeer";
       msg_content := JObj [("o1", Examples.v_ 1)] |} in
  trace (onSignal message false s)
  = [UpdateStateCalled "o1" true (Examples.v_ 1) (Some "newPeer");
     GetStateCalled "o1" false;
     SubmitSignal "update" (JObj [("o1", Examples.v_ 2)])].
Proof. reflexivity. Qed.

(** Deferred connect: an object registered while disconnected sends
    nothing; when the runtime connects, one connect signal carries its
    state and the key moves to [connectedKeys]. *)
Example deferred_connect :
  let r1 := registerObject Examples.all_disconnected 5000 "o1"
              (Examples.returning (Examples.v_ 1)) (new 0%nat 0%nat) in
  let r2 := onConnected (state r1) in
  signals (trace r1) = []
  /\ _unconnectedKeys (state r1) = ["o1"]
  /\ signals (trace r2) = [("connect", JObj [("o1", Examples.v_ 1)])]
  /\ _connectedKeys (state r2) = ["o1"]
  /\ _unconnectedKeys (state r2) = [].
Proof. vm_compute. repeat split. Qed.

(** The last [unregisterObject] stops the timer and reports that the
    synchronizer can be dropped. *)
Example last_unregister_stops_timer :
  let r1 := registerObject Examples.all_connected 5000 "o1"
              (Examples.returning (Examples.v_ 1)) (new 0%nat 0%nat) in
  let r2 := unregisterObject "o1" (state r1) in
  _hTimer (state r1) = Some {| interval := 5000 |}
  /\ result r2 = Normal true
  /\ _hTimer (state r2) = None
  /\ _refCount (state r2) = 0.
Proof. vm_compute. repeat split. Qed.

(** * Further properties of the synchronizer *)

(** ** What a group event and a dispatch do, effect by effect *)

Lemma for_each_run_in {A B} (body : B -> A -> M B) (f : B -> A -> B)
    (P : list Effect -> Prop) (s : ContainerSynchronizer.t) (l : list A) :
  (forall acc x, x ∈ l ->
     exists tr, body acc x s = (Normal (f acc x), s, tr) /\ P tr) ->
  P [] ->
  (forall t1 t2, P t1 -> P t2 -> P (t1 ++ t2)) ->
  forall acc, exists tr,
    for_each l acc body s = (Normal (fold_left f l acc), s, tr) /\ P tr.
Proof.
  intros Hbody Hnil Happ. induction l as [|x l IH]; intros acc; simpl.
  - exists []. by split.
  - destruct (Hbody acc x) as (t1 & E1 & P1); [apply elem_of_cons; by left|].
    destruct (IH (fun a y Hy => Hbody a y (proj2 (elem_of_cons _ _ _) (or_intror Hy)))
                (f acc x)) as (t2 & E2 & P2).
    exists (t1 ++ t2). unfold bind. rewrite E1, E2. auto.
Qed.

(** Composing a group event never throws and leaves the synchronizer as
    it was. It calls [getState(false)], and only of registered objects
    among the keys; what it submits is the coalesced payload, if any. *)
Lemma sendGroupEvent_polls (keys : list string) (evt : string)
    (s : ContainerSynchronizer.t) :
  exists tr,
    Forall (fun e => match e with
                     | GetStateCalled id c =>
                         c = false /\ id ∈ keys /\ is_Some (_objects s !! id)
                     | ConsoleError _ => True
                     | _ => False
                     end) tr
    /\ sendGroupEvent keys evt s
       = (Normal tt, s,
          tr ++ match coalesced (_objects s) keys with
                | [] => []
                | _ :: _ => [SubmitSignal evt (JObj (coalesced (_objects s) keys))]
                end).
Proof.
  unfold sendGroupEvent, bind at 1.
  match goal with
  | |- context [for_each keys ?a ?b s] =>
      destruct (for_each_run_in b (coalesce_one (_objects s))
                  (Forall (fun e => match e with
                     | GetStateCalled id c =>
                         c = false /\ id ∈ keys /\ is_Some (_objects s !! id)
                     | ConsoleError _ => True
                     | _ => False
                     end)) s keys)
        with (acc := a) as (tr & E & Htr)
  end.
  - intros updates id Hin.
    unfold try_catch, bind, gets, call_getState, tell, lift, ret,
      coalesce_one, reported. simpl.
    destruct (_objects s !! id) as [h|] eqn:Hh; simpl.
    + destruct (getState h false) as [st|err]; simpl.
      * destruct (typeof_is_object st); eexists; split; try reflexivity;
          repeat constructor; eauto.
      * eexists; split; [reflexivity|]. repeat constructor; eauto.
    + eexists; split; [reflexivity|]. constructor.
  - constructor.
  - intros t1 t2. apply Forall_app_2.
  - exists tr. split; [done|]. rewrite E. fold (coalesced (_objects s) keys).
    destruct (coalesced (_objects s) keys) as [|p u]; simpl.
    + unfold ret. by rewrite app_nil_r.
    + unfold tell. done.
Qed.

(** Dispatching an incoming payload calls [updateState], and only of the
    registered objects among the ids of the payload whose entry is of type
    object, with the sender and the flag it was given. *)
Lemma dispatchUpdates_applies (senderId : option string) (updates : JsValue)
    (connecting : bool) (s : ContainerSynchronizer.t) :
  exists tr,
    Forall (fun e => match e with
                     | UpdateStateCalled id c st sender =>
                         c = connecting /\ sender = senderId
                         /\ id ∈ for_in_keys updates
                         /\ is_Some (_objects s !! id)
                         /\ st = get_prop updates id
                         /\ typeof_is_object st = true
                     | ConsoleError _ => True
                     | _ => False
                     end) tr
    /\ dispatchUpdates senderId updates connecting s
       = (Normal tt, s,
          tr ++ if connecting
                then trace (sendGroupEvent (recognized (_objects s) updates)
                              UPDATE_EVENT s)
                else []).
Proof.
  unfold dispatchUpdates, bind at 1.
  match goal with
  | |- context [for_each ?k ?a ?b s] =>
      destruct (for_each_run_in b
                  (fun keys id => match _objects s !! id with
                                  | Some _ => keys ++ [id]
                                  | None => keys
                                  end)
                  (Forall (fun e => match e with
                     | UpdateStateCalled id c st sender =>
                         c = connecting /\ sender = senderId
                         /\ id ∈ for_in_keys updates
                         /\ is_Some (_objects s !! id)
                         /\ st = get_prop updates id
                         /\ typeof_is_object st = true
                     | ConsoleError _ => True
                     | _ => False
                     end)) s k)
        with (acc := a) as (tr & E & Htr)
  end.
  - intros keys id Hin.
    unfold try_catch, bind, gets, call_updateState, tell, lift, ret. simpl.
    destruct (_objects s !! id) as [h|] eqn:Hh; simpl;
      [|eexists; split; [reflexivity | constructor]].
    destruct (typeof_is_object (get_prop updates id)) eqn:Hty; simpl;
      [|eexists; split; [reflexivity | constructor]].
    destruct (updateState h connecting (get_prop updates id) senderId);
      simpl; eexists; (split; [reflexivity|]); repeat constructor; eauto.
  - constructor.
  - intros t1 t2. apply Forall_app_2.
  - exists tr. split; [done|]. rewrite E, fold_recognized. simpl.
    fold (recognized (_objects s) updates).
    destruct connecting; [|done].
    destruct (sendGroupEvent_run (recognized (_objects s) updates)
                UPDATE_EVENT s) as (t2 & _ & ->). done.
Qed.

(** ** The runtime connects *)

Lemma onConnected_run (s : ContainerSynchronizer.t) :
  exists tr,
    Forall (fun e => match e with
                     | GetStateCalled id c =>
                         c = false /\ id ∈ _unconnectedKeys s
                         /\ is_Some (_objects s !! id)
                     | ConsoleError _ => True
                     | _ => False
                     end) tr
    /\ onConnected s
       = (Normal tt,
          set_unconnectedKeys []
            (set_connectedKeys (_connectedKeys s ++ _unconnectedKeys s) s),
          tr ++ match coalesced (_objects s) (_unconnectedKeys s) with
                | [] => []
                | _ :: _ =>
                    [SubmitSignal CONNECT_EVENT
                       (JObj (coalesced (_objects s) (_unconnectedKeys s)))]
                end).
Proof.
  unfold onConnected, bind at 1, gets at 1. simpl.
  destruct (_unconnectedKeys s) as [|k pending] eqn:Hpending.
  - exists []. split; [constructor|]. simpl. unfold ret.
    destruct s as [rt crt objs unconnected connected rc tm].
    simpl in *. subst unconnected. unfold set_unconnectedKeys, set_connectedKeys.
    simpl. by rewrite app_nil_r.
  - rewrite <- Hpending.
    assert ((0 <? Z.of_nat (length (_unconnectedKeys s))) = true) as ->.
    { rewrite Hpending. simpl. apply Z.ltb_lt. lia. }
    destruct (sendGroupEvent_polls (_unconnectedKeys s) CONNECT_EVENT s)
      as (tr & Htr & E).
    exists tr. split; [done|]. unfold bind, modify. rewrite E. simpl.
    by rewrite !app_nil_r.
Qed.


(** ** Signals the synchronizer does not act on *)



(** ** Registering *)





(** ** Unregistering *)

(** X6. Unregistering the last reference of a synchronizer returns true,
    clears the running timer and forgets the object; the method returns
    before it reaches the key lists, which are left as they were. *)
Theorem unregisterObject_last_reference
    (s : ContainerSynchronizer.t) (id : string) :
  is_Some (_objects s !! id) ->
  _refCount s = 1 ->
  let r := unregisterObject id s in
  result r = Normal true
  /\ trace r = [ClearInterval (_hTimer s)]
  /\ _hTimer (state r) = None
  /\ _refCount (state r) = 0
  /\ _objects (state r) = delete id (_objects s)
  /\ _connectedKeys (state r) = _connectedKeys s
  /\ _unconnectedKeys (state r) = _unconnectedKeys s.
Proof.
  intros Hsome Hone r. subst r.
  unfold unregisterObject, bind, gets, modify, tell, ret. simpl.
  destruct (decide (is_Some (_objects s !! id))); [|done].
  simpl. rewrite Hone. simpl. repeat split.
Qed.

Lemma unregisterObject_last_reference_witness :
  let s := state (registerObject Examples.all_connected 5000 "o1"
                    (Examples.returning (Examples.v_ 1)) (new 0%nat 0%nat)) in
  let r := unregisterObject "o1" s in
  result r = Normal true
  /\ trace r = [ClearInterval (_hTimer s)]
  /\ _hTimer (state r) = None
  /\ _refCount (state r) = 0
  /\ _objects (state r) = delete "o1" (_objects s)
  /\ _connectedKeys (state r) = _connectedKeys s
  /\ _unconnectedKeys (state r) = _unconnectedKeys s.
Proof.
  apply (unregisterObject_last_reference
           (state (registerObject Examples.all_connected 5000 "o1"
                     (Examples.returning (Examples.v_ 1)) (new 0%nat 0%nat)))
           "o1"); [|reflexivity].
  exists (Examples.returning (Examples.v_ 1)). reflexivity.
Defined.

Lemma filter_ne_elem (id : string) (l : list string) (k : string) :
  k ∈ filter (fun key => key ≠ id) l <-> k ∈ l /\ k ≠ id.
Proof. rewrite list_elem_of_filter. by split; intros [??]. Qed.

(** X7. Unregistering a registered object that is not the last reference
    returns false and does nothing to the outside world or to the timer;
    the object leaves the objects map and its id leaves both key lists,
    while every other key stays where it was. *)
Theorem unregisterObject_other_references
    (s : ContainerSynchronizer.t) (id : string) :
  is_Some (_objects s !! id) ->
  _refCount s <> 1 ->
  let r := unregisterObject id s in
  result r = Normal false
  /\ trace r = []
  /\ _hTimer (state r) = _hTimer s
  /\ _refCount (state r) = _refCount s - 1
  /\ _objects (state r) !! id = None
  /\ (forall k, k ≠ id -> _objects (state r) !! k = _objects s !! k)
  /\ (forall k, k ∈ _connectedKeys (state r) <-> k ∈ _connectedKeys s /\ k ≠ id)
  /\ (forall k, k ∈ _unconnectedKeys (state r) <->
                k ∈ _unconnectedKeys s /\ k ≠ id)
  /\ _connectedKeys (state r) `sublist_of` _connectedKeys s
  /\ _unconnectedKeys (state r) `sublist_of` _unconnectedKeys s.
Proof.
  intros Hsome Hne r. subst r.
  unfold unregisterObject, bind, gets, modify, tell, ret. simpl.
  destruct (decide (is_Some (_objects s !! id))); [|done].
  simpl. destruct (Z.eqb_spec (_refCount s - 1) 0) as [Hz|_]; [lia|].
  simpl. split_and!; try done.
  - apply lookup_delete_eq.
  - intros k Hk. by apply lookup_delete_ne.
  - intros k. apply filter_ne_elem.
  - intros k. apply filter_ne_elem.
  - apply sublist_filter.
  - apply sublist_filter.
Qed.

Lemma unregisterObject_other_references_witness :
  let s := Examples.with_o1_o2 (Examples.returning JNull) Examples.throwing in
  let r := unregisterObject "o1" s in
  result r = Normal false
  /\ trace r = []
  /\ _hTimer (state r) = _hTimer s
  /\ _refCount (state r) = _refCount s - 1
  /\ _objects (state r) !! "o1" = None
  /\ (forall k, k ≠ "o1" -> _objects (state r) !! k = _objects s !! k)
  /\ (forall k, k ∈ _connectedKeys (state r) <-> k ∈ _connectedKeys s /\ k ≠ "o1")
  /\ (forall k, k ∈ _unconnectedKeys (state r) <->
                k ∈ _unconnectedKeys s /\ k ≠ "o1")
  /\ _connectedKeys (state r) `sublist_of` _connectedKeys s
  /\ _unconnectedKeys (state r) `sublist_of` _unconnectedKeys s.
Proof.
  apply (unregisterObject_other_references
           (Examples.with_o1_o2 (Examples.returning JNull) Examples.throwing)
           "o1"); [|done].
  exists (Examples.returning JNull). reflexivity.
Defined.

(** ** Objects that are not registered *)

Lemma sendGroupEvent_leaves_out (keys : list string) (evt : string)
    (s : ContainerSynchronizer.t) (id : string) :
  _objects s !! id = None ->
  Forall (fun e => match e with
                   | GetStateCalled i _ | UpdateStateCalled i _ _ _ => i ≠ id
                   | SubmitSignal _ (JObj u) => obj_get id u = None
                   | _ => True
                   end) (trace (sendGroupEvent keys evt s)).
Proof.
  intros Hnone. destruct (sendGroupEvent_polls keys evt s) as (tr & Htr & ->).
  unfold trace. simpl. apply Forall_app_2.
  - eapply Forall_impl; [exact Htr|]. intros [] He; try done.
    destruct He as (_ & _ & [h Hh]). congruence.
  - destruct (coalesced (_objects s) keys) as [|p u] eqn:Hc; [constructor|].
    repeat constructor. rewrite <- Hc.
    destruct (obj_get id _) as [st|] eqn:Hget; [|done].
    apply coalesced_lookup in Hget as [_ Hrep].
    apply reported_registered in Hrep as (h & Hh & _). congruence.
Qed.

(** X8. An id under which no object is registered is out of everything
    the synchronizer does on a tick, when the runtime connects and on any
    signal: no [getState] and no [updateState] is called for it, and no
    payload that is submitted has it as a key. This holds in particular
    of an object from the moment it is unregistered. *)
Theorem unregistered_id_untouched (s : ContainerSynchronizer.t) (id : string) :
  _objects s !! id = None ->
  forall e,
    e ∈ trace (onTimer s)
    \/ e ∈ trace (onConnected s)
    \/ (exists message local, e ∈ trace (onSignal message local s)) ->
    match e with
    | GetStateCalled i _ | UpdateStateCalled i _ _ _ => i ≠ id
    | SubmitSignal _ (JObj u) => obj_get id u = None
    | _ => True
    end.
Proof.
  intros Hnone e.
  pose proof (fun keys evt => proj1 (Forall_forall _ _)
                (sendGroupEvent_leaves_out keys evt s id Hnone)) as Hsend.
  assert (forall sender updates connecting,
            e ∈ trace (dispatchUpdates sender updates connecting s) ->
            match e with
            | GetStateCalled i _ | UpdateStateCalled i _ _ _ => i ≠ id
            | SubmitSignal _ (JObj u) => obj_get id u = None
            | _ => True
            end) as Hdispatch.
  { intros sender updates connecting.
    destruct (dispatchUpdates_applies sender updates connecting s)
      as (tr & Htr & ->).
    unfold trace at 1. simpl. intros [Hin|Hin]%elem_of_app.
    - rewrite Forall_forall in Htr. apply Htr in Hin.
      destruct e; try done. destruct Hin as (_ & _ & _ & [h Hh] & _). congruence.
    - destruct connecting; [by apply Hsend in Hin | by apply elem_of_nil in Hin]. }
  intros [Hin | [Hin | (message & local & Hin)]].
  - unfold onTimer, try_catch, bind, gets in Hin. simpl in Hin.
    destruct (sendGroupEvent_run (_connectedKeys s) UPDATE_EVENT s)
      as (tr & _ & E).
    pose proof (Hsend (_connectedKeys s) UPDATE_EVENT e) as He.
    rewrite E in Hin, He. by apply He.
  - destruct (onConnected_run s) as (tr & Htr & E).
    rewrite E in Hin. unfold trace in Hin. simpl in Hin.
    apply elem_of_app in Hin as [Hin|Hin].
    + rewrite Forall_forall in Htr. apply Htr in Hin.
      destruct e; try done. destruct Hin as (_ & _ & [h Hh]). congruence.
    + destruct (coalesced (_objects s) (_unconnectedKeys s)) as [|p u] eqn:Hc;
        [by apply elem_of_nil in Hin|].
      apply list_elem_of_singleton in Hin as ->. rewrite <- Hc.
      apply eq_None_not_Some. intros [st Hget].
      apply coalesced_lookup in Hget as [_ Hrep].
      apply reported_registered in Hrep as (h & Hh & _). congruence.
  - unfold onSignal in Hin.
    destruct (negb local && _); [|by apply elem_of_nil in Hin].
    destruct (String.eqb _ CONNECT_EVENT); [by apply Hdispatch in Hin|].
    destruct (String.eqb _ UPDATE_EVENT); [by apply Hdispatch in Hin|].
    by apply elem_of_nil in Hin.
Qed.

Lemma unregistered_id_untouched_witness :
  let s := state (unregisterObject "o1"
                    (Examples.with_o1_o2 (Examples.returning (Examples.v_ 1))
                       (Examples.returning (Examples.v_ 2)))) in
  _objects s !! "o1" = None /\
  forall e,
    e ∈ trace (onTimer s)
    \/ e ∈ trace (onConnected s)
    \/ (exists message local, e ∈ trace (onSignal message local s)) ->
    match e with
    | GetStateCalled i _ | UpdateStateCalled i _ _ _ => i ≠ "o1"
    | SubmitSignal _ (JObj u) => obj_get "o1" u = None
    | _ => True
    end.
Proof.
  split; [reflexivity|].
  apply (unregistered_id_untouched
           (state (unregisterObject "o1"
                     (Examples.with_o1_o2 (Examples.returning (Examples.v_ 1))
                        (Examples.returning (Examples.v_ 2)))))
           "o1").
  reflexivity.
Defined.

(** ** Registering and unregistering compose *)

Lemma filter_ne_absent (id : string) (l : list string) :
  id ∉ l -> filter (fun key => key ≠ id) l = l.
Proof.
  induction l as [|k l IH]; intros Hnot; [done|].
  apply not_elem_of_cons in Hnot as [Hne Hnot].
  rewrite filter_cons, decide_True by done. by rewrite IH.
Qed.

Lemma filter_ne_snoc (id : string) (l : list string) :
  id ∉ l -> filter (fun key => key ≠ id) (l ++ [id]) = l.
Proof.
  intros Hnot. rewrite filter_app, (filter_ne_absent _ _ Hnot).
  rewrite filter_cons, decide_False by (by intros ?). simpl.
  by rewrite app_nil_r.
Qed.

(** X9. On a synchronizer that already has references, registering an
    object under a fresh id and then unregistering it gives back the
    synchronizer as it was before: objects, both key lists, reference
    count and timer. *)
Theorem register_then_unregister
    (runtimes : Runtimes) (updateInterval : Z) (s : ContainerSynchronizer.t)
    (id : string) (handlers : GetAndUpdateStateHandlers) :
  _objects s !! id = None ->
  id ∉ _connectedKeys s ->
  id ∉ _unconnectedKeys s ->
  _refCount s <> 0 ->
  result (registerObject runtimes updateInterval id handlers s) = Normal tt ->
  unregisterObject id (state (registerObject runtimes updateInterval id handlers s))
  = (Normal false, s, []).
Proof.
  intros Hfree Hc Hu Hrc.
  destruct s as [rt crt objs unconnected connected rc tm]. simpl in *.
  assert ((rc =? 0) = false) as Hz by (by apply Z.eqb_neq).
  assert ((rc + 1 - 1 =? 0) = false) as Hback by (apply Z.eqb_neq; lia).
  assert (is_Some (<[id:=handlers]> objs !! id)) as Hin
    by (rewrite lookup_insert_eq; by eexists).
  unfold registerObject, call_getState, bind, gets, modify, tell, lift, ret.
  simpl. destruct (decide (is_Some (objs !! id))) as [Hsome|_].
  { rewrite Hfree in Hsome. by destruct Hsome. }
  simpl. destruct (IRuntimeSignaler.connected (runtimes rt)); simpl.
  - destruct (getState handlers true) as [st|err]; simpl; [|done].
    rewrite Hz. simpl. intros _.
    unfold unregisterObject, bind, gets, modify, tell, ret, state. simpl.
    destruct (decide (is_Some (<[id:=handlers]> objs !! id))); [|done].
    simpl. rewrite Hback. simpl.
    unfold set_unconnectedKeys, set_connectedKeys, set_refCount, set_objects.
    simpl. rewrite (delete_insert_id objs id handlers Hfree).
    rewrite filter_ne_snoc, filter_ne_absent by done.
    do 2 f_equal. f_equal. lia.
  - rewrite Hz. simpl. intros _.
    unfold unregisterObject, bind, gets, modify, tell, ret, state. simpl.
    destruct (decide (is_Some (<[id:=handlers]> objs !! id))); [|done].
    simpl. rewrite Hback. simpl.
    unfold set_unconnectedKeys, set_connectedKeys, set_refCount, set_objects.
    simpl. rewrite (delete_insert_id objs id handlers Hfree).
    rewrite filter_ne_snoc, filter_ne_absent by done.
    do 2 f_equal. f_equal. lia.
Qed.

Lemma register_then_unregister_witness :
  let s := Examples.with_o1_o2 (Examples.returning JNull) Examples.throwing in
  unregisterObject "o3"
    (state (registerObject Examples.all_connected 5000 "o3"
              (Examples.returning (Examples.v_ 3)) s))
  = (Normal false, s, []).
Proof.
  apply (register_then_unregister Examples.all_connected 5000
           (Examples.with_o1_o2 (Examples.returning JNull) Examples.throwing)
           "o3" (Examples.returning (Examples.v_ 3)));
    [reflexivity | | | done | reflexivity].
  - intros Hin. apply elem_of_cons in Hin as [?|Hin]; [done|].
    apply elem_of_cons in Hin as [?|Hin]; [done|]. by apply elem_of_nil in Hin.
  - by intros ?%elem_of_nil.
Defined.

(** ** The payload of a tick, entry by entry *)





(** * The life of a page *)

(** ** The outcomes of registering and unregistering *)



(** ** The undisposed facades *)





(** ** What registering and unregistering do to a well-formed synchronizer *)







(** ** The invariant of a page *)









(** * Further properties of the event scope *)

Lemma emit_calls_registered
    (listeners : list (string * LiveEventScope.LiveEventListener))
    (eventName : string) (evt : JsValue) (local : bool)
    (l : nat) (e : JsValue) (loc : bool) :
  (l, e, loc) ∈ LiveEventScope.delivered
                  (LiveEventScope.emit listeners eventName evt local).2 ->
  exists listener,
    (eventName, listener) ∈ listeners
    /\ LiveEventScope.listener_id listener = l.
Proof.
  induction listeners as [|[n x] listeners IH]; simpl.
  - by intros ?%elem_of_nil.
  - destruct (String.eqb_spec n eventName) as [->|Hne].
    + destruct (LiveEventScope.listener_fn x evt local) as [[]|err].
      * destruct (LiveEventScope.emit listeners eventName evt local) as [r tr].
        simpl in *. intros [Heq|Hin]%elem_of_cons.
        { injection Heq as -> -> ->. exists x. split; [|done].
          apply elem_of_cons. by left. }
        destruct (IH Hin) as (y & Hy & Hid). exists y. split; [|done].
        apply elem_of_cons. by right.
      * simpl. intros [Heq|Hin]%elem_of_cons; [|by apply elem_of_nil in Hin].
        injection Heq as -> -> ->. exists x. split; [|done].
        apply elem_of_cons. by left.
    + intros Hin. destruct (IH Hin) as (y & Hy & Hid). exists y.
      split; [|done]. apply elem_of_cons. by right.
Qed.

(** X13. A listener of the scope is only ever called for a signal that
    arrived while the runtime was connected, whose carrier gave a client
    id, and for which the role check answered true; and the listener is
    one that was added under the type of the signal. *)
Theorem listener_called_only_when_allowed
    (verifyRolesAllowed : string -> list LiveEvent.UserMeetingRole -> Completion bool)
    (runtimes : Runtimes) (scope : LiveEventScope.t)
    (message : IInboundSignalMessage) (local : bool)
    (l : nat) (evt : JsValue) (loc : bool) :
  (l, evt, loc)
    ∈ LiveEventScope.delivered
        (LiveEventScope.onSignal verifyRolesAllowed runtimes scope message local).2 ->
  IRuntimeSignaler.connected (runtimes (LiveEventScope._runtime scope)) = true
  /\ (exists clientId,
        msg_clientId message = Some clientId
        /\ verifyRolesAllowed clientId (LiveEventScope._allowedRoles scope)
           = Normal true)
  /\ (exists listener,
        (msg_type message, listener) ∈ LiveEventScope.emitter scope
        /\ LiveEventScope.listener_id listener = l).
Proof.
  unfold LiveEventScope.onSignal.
  destruct (msg_content message) as [| | | | |props];
    try (by intros ?%elem_of_nil).
  destruct (IRuntimeSignaler.connected _); [|by intros ?%elem_of_nil].
  destruct (msg_clientId message) as [cid|]; [|by intros ?%elem_of_nil].
  destruct (verifyRolesAllowed cid _) as [[]|err] eqn:Hcheck; simpl;
    try (by intros ?%elem_of_nil).
  pose proof (emit_calls_registered (LiveEventScope.emitter scope)
                (msg_type message)
                (JObj (obj_set "clientId" (JStr cid) props)) local l evt loc)
    as Hemit.
  destruct (LiveEventScope.emit _ _ _ _) as [[[]|err] tr]; simpl in *.
  - intros Hin. split; [done|]. split; [by exists cid | by apply Hemit].
  - rewrite delivered_app. simpl. rewrite app_nil_r.
    intros Hin. split; [done|]. split; [by exists cid | by apply Hemit].
Qed.

Lemma listener_called_only_when_allowed_witness :
  IRuntimeSignaler.connected
    (Examples.all_connected (LiveEventScope._runtime Examples.open_scope)) = true
  /\ (exists clientId,
        msg_clientId (Examples.transport_from "A") = Some clientId
        /\ LiveEvent.verifyRolesAllowed Examples.no_roles clientId
             (LiveEventScope._allowedRoles Examples.open_scope)
           = Normal true)
  /\ (exists listener,
        (msg_type (Examples.transport_from "A"), listener)
          ∈ LiveEventScope.emitter Examples.open_scope
        /\ LiveEventScope.listener_id listener = 1%nat).
Proof.
  apply (listener_called_only_when_allowed
           (LiveEvent.verifyRolesAllowed Examples.no_roles)
           Examples.all_connected Examples.open_scope
           (Examples.transport_from "A") false 1%nat
           (JObj [("clientId", JStr "A"); ("position", JNum 3)]) false).
  vm_compute. apply elem_of_cons. by left.
Defined.

Lemma emit_no_throw
    (listeners : list (string * LiveEventScope.LiveEventListener))
    (eventName : string) (evt : JsValue) (local : bool) :
  (forall l, l ∈ LiveEventScope.listeners_of eventName listeners ->
             LiveEventScope.listener_fn l evt local = Normal tt) ->
  LiveEventScope.emit listeners eventName evt local
  = (Normal tt,
     map (fun l => LiveEventScope.ListenerCalled eventName
                     (LiveEventScope.listener_id l) evt local)
       (LiveEventScope.listeners_of eventName listeners)).
Proof.
  induction listeners as [|[n x] listeners IH]; intros Hok; [done|].
  unfold LiveEventScope.listeners_of in *. simpl in *.
  destruct (String.eqb n eventName); simpl in *.
  - rewrite (Hok x) by (apply elem_of_cons; by left).
    rewrite IH; [done|]. intros l Hl. apply Hok, elem_of_cons. by right.
  - by apply IH.
Qed.

Lemma emit_throw
    (before after : list (string * LiveEventScope.LiveEventListener))
    (eventName : string) (thrower : LiveEventScope.LiveEventListener)
    (evt : JsValue) (local : bool) (err : string) :
  (forall l, l ∈ LiveEventScope.listeners_of eventName before ->
             LiveEventScope.listener_fn l evt local = Normal tt) ->
  LiveEventScope.listener_fn thrower evt local = Throw err ->
  LiveEventScope.emit (before ++ (eventName, thrower) :: after)
    eventName evt local
  = (Throw err,
     map (fun l => LiveEventScope.ListenerCalled eventName
                     (LiveEventScope.listener_id l) evt local)
       (LiveEventScope.listeners_of eventName before ++ [thrower])).
Proof.
  intros Hok Hthrow. induction before as [|[n x] before IH].
  - simpl. by rewrite String.eqb_refl, Hthrow.
  - unfold LiveEventScope.listeners_of in *. simpl in *.
    destruct (String.eqb n eventName); simpl in *.
    + rewrite (Hok x) by (apply elem_of_cons; by left).
      rewrite IH; [done|]. intros l Hl. apply Hok, elem_of_cons. by right.
    + by apply IH.
Qed.

Lemma delivered_calls (eventName : string) (evt : JsValue) (local : bool)
    (ls : list LiveEventScope.LiveEventListener) :
  LiveEventScope.delivered
    (map (fun l => LiveEventScope.ListenerCalled eventName
                     (LiveEventScope.listener_id l) evt local) ls)
  = map (fun l => (LiveEventScope.listener_id l, evt, local)) ls.
Proof.
  induction ls as [|l ls IH]; [done|].
  unfold LiveEventScope.delivered in *. simpl. f_equal. exact IH.
Qed.

(** X14. When the signal passes the gate and no listener of its type
    throws, every listener added under that type is called exactly once,
    in the order the listeners were added, each with the same event and
    the [local] flag of the signal; nothing is logged. *)
Theorem onSignal_calls_listeners_in_order
    (verifyRolesAllowed : string -> list LiveEvent.UserMeetingRole -> Completion bool)
    (runtimes : Runtimes) (scope : LiveEventScope.t)
    (message : IInboundSignalMessage) (local : bool)
    (clientId : string) (props : JsObject) :
  IRuntimeSignaler.connected (runtimes (LiveEventScope._runtime scope)) = true ->
  msg_clientId message = Some clientId ->
  msg_content message = JObj props ->
  verifyRolesAllowed clientId (LiveEventScope._allowedRoles scope) = Normal true ->
  let evt := JObj (obj_set "clientId" (JStr clientId) props) in
  (forall l,
     l ∈ LiveEventScope.listeners_of (msg_type message)
           (LiveEventScope.emitter scope) ->
     LiveEventScope.listener_fn l evt local = Normal tt) ->
  let r := LiveEventScope.onSignal verifyRolesAllowed runtimes scope message local in
  r.1.1 = Normal tt
  /\ msg_content r.1.2 = evt
  /\ r.2 = map (fun l => LiveEventScope.ListenerCalled (msg_type message)
                           (LiveEventScope.listener_id l) evt local)
             (LiveEventScope.listeners_of (msg_type message)
                (LiveEventScope.emitter scope)).
Proof.
  intros Hconn Hcid Hcontent Hcheck evt Hok r. subst r evt.
  unfold LiveEventScope.onSignal. rewrite Hcontent, Hconn, Hcid. simpl.
  rewrite Hcheck. by rewrite emit_no_throw.
Qed.

Lemma onSignal_calls_listeners_in_order_witness :
  let evt := JObj (obj_set "clientId" (JStr "A")
                     [("clientId", JStr "forged"); ("position", JNum 3)]) in
  let r := LiveEventScope.onSignal
             (LiveEvent.verifyRolesAllowed Examples.no_roles)
             Examples.all_connected Examples.open_scope
             (Examples.transport_from "A") true in
  r.1.1 = Normal tt
  /\ msg_content r.1.2 = evt
  /\ r.2 = map (fun l => LiveEventScope.ListenerCalled
                           (msg_type (Examples.transport_from "A"))
                           (LiveEventScope.listener_id l) evt true)
             (LiveEventScope.listeners_of (msg_type (Examples.transport_from "A"))
                (LiveEventScope.emitter Examples.open_scope)).
Proof.
  apply (onSignal_calls_listeners_in_order
           (LiveEvent.verifyRolesAllowed Examples.no_roles)
           Examples.all_connected Examples.open_scope
           (Examples.transport_from "A") true "A"
           [("clientId", JStr "forged"); ("position", JNum 3)]);
    try reflexivity.
  intros l Hl. apply elem_of_cons in Hl as [->|Hl]; [reflexivity|].
  by apply elem_of_nil in Hl.
Defined.

(** X15. When a listener throws, the error does not leave the scope: the
    listeners added before it under the type have been called, the ones
    added after it are not, and the error is sent to the logger, once,
    under the event name [SharedEvent:invalidRole]. *)
Theorem onSignal_listener_throws
    (verifyRolesAllowed : string -> list LiveEvent.UserMeetingRole -> Completion bool)
    (runtimes : Runtimes) (scope : LiveEventScope.t)
    (message : IInboundSignalMessage) (local : bool)
    (clientId : string) (props : JsObject)
    (before after : list (string * LiveEventScope.LiveEventListener))
    (thrower : LiveEventScope.LiveEventListener) (err : string) :
  IRuntimeSignaler.connected (runtimes (LiveEventScope._runtime scope)) = true ->
  msg_clientId message = Some clientId ->
  msg_content message = JObj props ->
  verifyRolesAllowed clientId (LiveEventScope._allowedRoles scope) = Normal true ->
  LiveEventScope.emitter scope = before ++ (msg_type message, thrower) :: after ->
  let evt := JObj (obj_set "clientId" (JStr clientId) props) in
  (forall l, l ∈ LiveEventScope.listeners_of (msg_type message) before ->
             LiveEventScope.listener_fn l evt local = Normal tt) ->
  LiveEventScope.listener_fn thrower evt local = Throw err ->
  let r := LiveEventScope.onSignal verifyRolesAllowed runtimes scope message local in
  r.1.1 = Normal tt
  /\ LiveEventScope.delivered r.2
     = map (fun l => (LiveEventScope.listener_id l, evt, local))
         (LiveEventScope.listeners_of (msg_type message) before ++ [thrower])
  /\ r.2 = map (fun l => LiveEventScope.ListenerCalled (msg_type message)
                           (LiveEventScope.listener_id l) evt local)
             (LiveEventScope.listeners_of (msg_type message) before ++ [thrower])
           ++ [LiveEventScope.SendErrorEvent "SharedEvent:invalidRole"
                 (LiveEventScope.Rejected err)].
Proof.
  intros Hconn Hcid Hcontent Hcheck Hsplit evt Hok Hthrow r. subst r evt.
  unfold LiveEventScope.onSignal. rewrite Hcontent, Hconn, Hcid. simpl.
  rewrite Hcheck, Hsplit, (emit_throw _ _ _ _ _ _ err Hok Hthrow). simpl.
  split; [done|]. split; [|done].
  rewrite delivered_app, delivered_calls. simpl. by rewrite app_nil_r.
Qed.

Lemma get_prop_set_ne (k k' : string) (v : JsValue) (o : JsObject) :
  k ≠ k' -> get_prop (JObj (obj_set k v o)) k' = get_prop (JObj o) k'.
Proof. intros Hne. simpl. by rewrite obj_get_set_ne. Qed.

Lemma get_prop_set_eq (k : string) (v : JsValue) (o : JsObject) :
  get_prop (JObj (obj_set k v o)) k = v.
Proof. simpl. by rewrite obj_get_set_eq. Qed.

(** X16. The event a listener is called with is the content of the
    message as the listener of the signal left it, and it differs from
    the content that arrived in its [clientId] at most: every other
    property reads the same. *)
Theorem delivered_event_keeps_payload
    (verifyRolesAllowed : string -> list LiveEvent.UserMeetingRole -> Completion bool)
    (runtimes : Runtimes) (scope : LiveEventScope.t)
    (message : IInboundSignalMessage) (local : bool)
    (l : nat) (evt : JsValue) (loc : bool) :
  (l, evt, loc)
    ∈ LiveEventScope.delivered
        (LiveEventScope.onSignal verifyRolesAllowed runtimes scope message local).2 ->
  msg_content
    (LiveEventScope.onSignal verifyRolesAllowed runtimes scope message local).1.2
  = evt
  /\ forall k, k ≠ "clientId" ->
               get_prop evt k = get_prop (msg_content message) k.
Proof.
  unfold LiveEventScope.onSignal.
  destruct (msg_content message) as [| | | | |props];
    try (by intros ?%elem_of_nil).
  destruct (IRuntimeSignaler.connected _); [|by intros ?%elem_of_nil].
  destruct (msg_clientId message) as [cid|]; [|by intros ?%elem_of_nil].
  destruct (verifyRolesAllowed cid _) as [[]|err]; simpl;
    try (by intros ?%elem_of_nil).
  pose proof (emit_delivers_the_event (LiveEventScope.emitter scope)
                (msg_type message)
                (JObj (obj_set "clientId" (JStr cid) props)) local l evt loc)
    as Hemit.
  destruct (LiveEventScope.emit _ _ _ _) as [[[]|err] tr]; simpl in *.
  - intros Hin. destruct (Hemit Hin) as [-> _]. split; [done|].
    intros k Hk. by apply get_prop_set_ne.
  - rewrite delivered_app. simpl. rewrite app_nil_r.
    intros Hin. destruct (Hemit Hin) as [-> _]. split; [done|].
    intros k Hk. by apply get_prop_set_ne.
Qed.

Lemma delivered_event_keeps_payload_witness :
  msg_content
    (LiveEventScope.onSignal (LiveEvent.verifyRolesAllowed Examples.no_roles)
       Examples.all_connected Examples.open_scope
       (Examples.transport_from "A") false).1.2
  = JObj [("clientId", JStr "A"); ("position", JNum 3)]
  /\ forall k, k ≠ "clientId" ->
               get_prop (JObj [("clientId", JStr "A"); ("position", JNum 3)]) k
               = get_prop (msg_content (Examples.transport_from "A")) k.
Proof.
  apply (delivered_event_keeps_payload
           (LiveEvent.verifyRolesAllowed Examples.no_roles)
           Examples.all_connected Examples.open_scope
           (Examples.transport_from "A") false 1%nat
           (JObj [("clientId", JStr "A"); ("position", JNum 3)]) false).
  vm_compute. apply elem_of_cons. by left.
Defined.

(** X17. [sendEvent] submits one signal, of the type of the event, whose
    content is the event it returns. That event has the name of the
    event, the timestamp of the moment and the client id of the runtime
    ([undefined] while disconnected), whatever the caller had put under
    these names; every other property is the caller's. *)
Theorem sendEvent_stamps_the_event (runtimes : Runtimes) (now : Z)
    (scope : LiveEventScope.t) (eventName : string) (evt : JsObject) :
  let r := LiveEventScope.sendEvent runtimes now scope eventName evt in
  r.2 = [LiveEventScope.SubmitSignal eventName r.1]
  /\ get_prop r.1 "name" = JStr eventName
  /\ get_prop r.1 "timestamp" = JNum now
  /\ get_prop r.1 "clientId"
     = LiveEventScope.js_of_runtime_clientId
         (IRuntimeSignaler.clientId (runtimes (LiveEventScope._runtime scope)))
  /\ forall k, k ≠ "name" -> k ≠ "timestamp" -> k ≠ "clientId" ->
               get_prop r.1 k = get_prop (JObj evt) k.
Proof.
  intros r. subst r. unfold LiveEventScope.sendEvent. cbn [fst snd].
  split_and!.
  - done.
  - rewrite get_prop_set_ne by done. apply get_prop_set_eq.
  - apply get_prop_set_eq.
  - rewrite !get_prop_set_ne by done. apply get_prop_set_eq.
  - intros k Hn Ht Hc. by rewrite !get_prop_set_ne.
Qed.

(** X18. An event sent with [sendEvent] and carried to another client
    reaches every listener added there under the name of the event, as
    long as the receiving runtime is connected, the role check passes and
    no listener throws. What the listener gets has the name and the
    timestamp the sender stamped, the payload of the sender, and as
    [clientId] the id the carrier gives, not the one the sender wrote. *)
Theorem sent_event_is_received
    (verifyRolesAllowed : string -> list LiveEvent.UserMeetingRole -> Completion bool)
    (senderRuntimes receiverRuntimes : Runtimes) (now : Z)
    (sender receiver : LiveEventScope.t) (eventName : string) (evt : JsObject)
    (carrierId : string) (local : bool)
    (l : LiveEventScope.LiveEventListener) :
  let sent := (LiveEventScope.sendEvent senderRuntimes now sender eventName evt).1 in
  let message := {| msg_type := eventName; msg_clientId := Some carrierId;
                    msg_content := sent |} in
  IRuntimeSignaler.connected
    (receiverRuntimes (LiveEventScope._runtime receiver)) = true ->
  verifyRolesAllowed carrierId (LiveEventScope._allowedRoles receiver)
  = Normal true ->
  (forall l' e, l' ∈ LiveEventScope.listeners_of eventName
                       (LiveEventScope.emitter receiver) ->
                LiveEventScope.listener_fn l' e local = Normal tt) ->
  l ∈ LiveEventScope.listeners_of eventName (LiveEventScope.emitter receiver) ->
  exists received,
    (LiveEventScope.listener_id l, received, local)
      ∈ LiveEventScope.delivered
          (LiveEventScope.onSignal verifyRolesAllowed receiverRuntimes
             receiver message local).2
    /\ get_prop received "name" = JStr eventName
    /\ get_prop received "timestamp" = JNum now
    /\ get_prop received "clientId" = JStr carrierId
    /\ forall k, k ≠ "name" -> k ≠ "timestamp" -> k ≠ "clientId" ->
                 get_prop received k = get_prop (JObj evt) k.
Proof.
  intros sent message Hconn Hcheck Hok Hl. subst sent message.
  unfold LiveEventScope.sendEvent, LiveEventScope.onSignal. cbn [fst snd].
  cbn [msg_content msg_clientId msg_type]. rewrite Hconn, Hcheck.
  rewrite emit_no_throw by (intros l' Hl'; by apply Hok).
  eexists. split.
  - cbn [snd]. rewrite delivered_calls.
    apply (list_elem_of_fmap_2 (fun l => (LiveEventScope.listener_id l, _, local))).
    exact Hl.
  - split_and!.
    + rewrite !get_prop_set_ne by done. apply get_prop_set_eq.
    + rewrite get_prop_set_ne by done. apply get_prop_set_eq.
    + apply get_prop_set_eq.
    + intros k Hn Ht Hc. by rewrite !get_prop_set_ne.
Qed.

Lemma sent_event_is_received_witness :
  exists received,
    (1%nat, received, false)
      ∈ LiveEventScope.delivered
          (LiveEventScope.onSignal
             (LiveEvent.verifyRolesAllowed Examples.no_roles)
             Examples.all_connected Examples.open_scope
             {| msg_type := "transport"; msg_clientId := Some "A";
                msg_content :=
                  (LiveEventScope.sendEvent Examples.all_disconnected 1000
                     Examples.open_scope "transport"
                     [("position", JNum 3)]).1 |} false).2
    /\ get_prop received "name" = JStr "transport"
    /\ get_prop received "timestamp" = JNum 1000
    /\ get_prop received "clientId" = JStr "A"
    /\ forall k, k ≠ "name" -> k ≠ "timestamp" -> k ≠ "clientId" ->
                 get_prop received k = get_prop (JObj [("position", JNum 3)]) k.
Proof.
  apply (sent_event_is_received
           (LiveEvent.verifyRolesAllowed Examples.no_roles)
           Examples.all_disconnected Examples.all_connected 1000
           Examples.open_scope Examples.open_scope "transport"
           [("position", JNum 3)] "A" false (Examples.accepting 1));
    try reflexivity.
  - intros l' e Hl'. apply elem_of_cons in Hl' as [->|Hl']; [reflexivity|].
    by apply elem_of_nil in Hl'.
  - apply elem_of_cons. by left.
Defined.

Lemma remove_first_none {A} (p : A -> bool) (l : list A) :
  (forall x, x ∈ l -> p x = false) -> LiveEventScope.remove_first p l = l.
Proof.
  induction l as [|x l IH]; intros Hnone; [done|]. simpl.
  rewrite (Hnone x) by (apply elem_of_cons; by left).
  rewrite IH; [done|]. intros y Hy. apply Hnone, elem_of_cons. by right.
Qed.

(** X19. Removing a listener right after adding it gives back the scope
    as it was; and removing a listener that was never added under the
    name leaves the scope as it is. *)
Theorem offEvent_undoes_onEvent (eventName : string)
    (listener : LiveEventScope.LiveEventListener) (scope : LiveEventScope.t) :
  LiveEventScope.offEvent eventName listener
    (LiveEventScope.onEvent eventName listener scope) = scope
  /\ ((forall entry, entry ∈ LiveEventScope.emitter scope ->
                     LiveEventScope.is_listener eventName listener entry = false) ->
      LiveEventScope.offEvent eventName listener scope = scope).
Proof.
  destruct scope as [ls rt roles].
  unfold LiveEventScope.offEvent, LiveEventScope.onEvent. simpl. split.
  - rewrite rev_app_distr. simpl.
    unfold LiveEventScope.is_listener at 1. simpl.
    rewrite String.eqb_refl, Nat.eqb_refl. simpl. by rewrite rev_involutive.
  - intros Hnone. rewrite remove_first_none; [by rewrite rev_involutive|].
    intros x Hx. apply Hnone. apply list_elem_of_In, in_rev, list_elem_of_In in Hx.
    done.
Qed.

Lemma onSignal_listener_throws_witness :
  let evt := JObj (obj_set "clientId" (JStr "A")
                     [("clientId", JStr "forged"); ("position", JNum 3)]) in
  let before := [("error", Examples.accepting 0);
                 ("transport", Examples.accepting 1)] in
  let r := LiveEventScope.onSignal
             (LiveEvent.verifyRolesAllowed Examples.no_roles)
             Examples.all_connected Scenarios.scope_with_failing_listener
             (Examples.transport_from "A") false in
  r.1.1 = Normal tt
  /\ LiveEventScope.delivered r.2
     = map (fun l => (LiveEventScope.listener_id l, evt, false))
         (LiveEventScope.listeners_of (msg_type (Examples.transport_from "A"))
            before ++ [Scenarios.failing 2])
  /\ r.2 = map (fun l => LiveEventScope.ListenerCalled
                           (msg_type (Examples.transport_from "A"))
                           (LiveEventScope.listener_id l) evt false)
             (LiveEventScope.listeners_of
                (msg_type (Examples.transport_from "A")) before
              ++ [Scenarios.failing 2])
           ++ [LiveEventScope.SendErrorEvent "SharedEvent:invalidRole"
                 (LiveEventScope.Rejected "Error: listener")].
Proof.
  apply (onSignal_listener_throws
           (LiveEvent.verifyRolesAllowed Examples.no_roles)
           Examples.all_connected Scenarios.scope_with_failing_listener
           (Examples.transport_from "A") false "A"
           [("clientId", JStr "forged"); ("position", JNum 3)]
           [("error", Examples.accepting 0); ("transport", Examples.accepting 1)]
           [("transport", Examples.accepting 3)]
           (Scenarios.failing 2) "Error: listener");
    try reflexivity.
  intros l Hl. apply elem_of_cons in Hl as [->|Hl]; [reflexivity|].
  by apply elem_of_nil in Hl.
Defined.




(** * The registry of synchronizers *)

Lemma constructor_run (runtimes : Runtimes) (id : string) (runtime : RuntimeRef)
    (c : ContainerRuntimeRef) (getState : bool -> Completion JsValue)
    (updateState : bool -> JsValue -> option string -> Completion unit)
    (st : LiveObjectSynchronizer.Statics) :
  let s0 := default (new runtime c)
              (LiveObjectSynchronizer._synchronizers st !! c) in
  let r := registerObject runtimes (LiveObjectSynchronizer.updateInterval st) id
             {| getState := getState; updateState := updateState |} s0 in
  LiveObjectSynchronizer.constructor runtimes id runtime c getState updateState st
  = (match result r with
     | Normal _ =>
         Normal {| LiveObjectSynchronizer._id := id;
                   LiveObjectSynchronizer._containerRuntime := c;
                   LiveObjectSynchronizer._isDisposed := false |}
     | Throw err => Throw err
     end,
     LiveObjectSynchronizer.set_synchronizers
       (<[c := state r]> (LiveObjectSynchronizer._synchronizers st)) st,
     trace r).
Proof.
  intros s0 r. subst s0 r.
  unfold LiveObjectSynchronizer.constructor, LiveObjectSynchronizer.registerObject.
  destruct (LiveObjectSynchronizer._synchronizers st !! c); simpl;
    by destruct (registerObject _ _ _ _ _) as [[[]] ?].
Qed.

(** X20. On a container that has no synchronizer yet, building a facade
    and disposing it gives back the registry as it was: the synchronizer
    made for the facade is dropped and the timer that was started with
    the update interval of the moment is cleared; disposing the facade a
    second time does nothing. *)
Theorem construct_then_dispose
    (runtimes : Runtimes) (id : string) (runtime : RuntimeRef)
    (c : ContainerRuntimeRef) (getState : bool -> Completion JsValue)
    (updateState : bool -> JsValue -> option string -> Completion unit)
    (st st1 : LiveObjectSynchronizer.Statics) (f : LiveObjectSynchronizer.t)
    (tr : list Effect) :
  LiveObjectSynchronizer._synchronizers st !! c = None ->
  LiveObjectSynchronizer.constructor runtimes id runtime c getState updateState st
  = (Normal f, st1, tr) ->
  let disposed := {| LiveObjectSynchronizer._id := id;
                     LiveObjectSynchronizer._containerRuntime := c;
                     LiveObjectSynchronizer._isDisposed := true |} in
  SetInterval (LiveObjectSynchronizer.updateInterval st) ∈ tr
  /\ LiveObjectSynchronizer.dispose f st1
     = (disposed, st,
        [ClearInterval
           (Some {| interval := LiveObjectSynchronizer.updateInterval st |})])
  /\ LiveObjectSynchronizer.dispose disposed st = (disposed, st, []).
Proof.
  intros Hnone.
  unfold LiveObjectSynchronizer.constructor, LiveObjectSynchronizer.registerObject.
  rewrite Hnone.
  unfold registerObject, call_getState, bind, gets, modify, tell, lift, ret.
  simpl. destruct (decide (is_Some (_ !! id))) as [Hsome|_].
  { rewrite lookup_empty in Hsome. by destruct Hsome. }
  assert (forall s',
            _objects s' = <[id := {| getState := getState;
                                     updateState := updateState |}]> ∅ ->
            _refCount s' = 1 ->
            _hTimer s'
            = Some {| interval := LiveObjectSynchronizer.updateInterval st |} ->
            LiveObjectSynchronizer.dispose
              {| LiveObjectSynchronizer._id := id;
                 LiveObjectSynchronizer._containerRuntime := c;
                 LiveObjectSynchronizer._isDisposed := false |}
              (LiveObjectSynchronizer.set_synchronizers
                 (<[c := s']> (LiveObjectSynchronizer._synchronizers st)) st)
            = ({| LiveObjectSynchronizer._id := id;
                  LiveObjectSynchronizer._containerRuntime := c;
                  LiveObjectSynchronizer._isDisposed := true |}, st,
               [ClearInterval
                  (Some {| interval := LiveObjectSynchronizer.updateInterval st |})]))
    as Hdispose.
  { intros s' Hobjs Hrc Htm.
    unfold LiveObjectSynchronizer.dispose, LiveObjectSynchronizer.unregisterObject.
    simpl. rewrite lookup_insert_eq.
    unfold unregisterObject, bind, gets, modify, tell, ret. simpl.
    destruct (decide (is_Some (_objects s' !! id))) as [_|Hno].
    - simpl. rewrite Hrc. simpl. rewrite Htm.
      unfold LiveObjectSynchronizer.set_synchronizers. simpl.
      rewrite delete_insert_id by done. by destruct st.
    - destruct Hno. rewrite Hobjs, lookup_insert_eq. by eexists. }
  simpl. destruct (IRuntimeSignaler.connected (runtimes runtime)); simpl.
  - destruct (getState true) as [state0|err]; simpl; [|done].
    intros [= <- <- <-]. split_and!.
    + apply elem_of_cons; right. apply elem_of_cons; right.
      apply elem_of_cons; by left.
    + by apply Hdispose.
    + done.
  - intros [= <- <- <-]. split_and!.
    + apply elem_of_cons; by left.
    + by apply Hdispose.
    + done.
Qed.

Lemma construct_then_dispose_witness :
  let f := {| LiveObjectSynchronizer._id := "o1";
              LiveObjectSynchronizer._containerRuntime := 0%nat;
              LiveObjectSynchronizer._isDisposed := false |} in
  let disposed := {| LiveObjectSynchronizer._id := "o1";
                     LiveObjectSynchronizer._containerRuntime := 0%nat;
                     LiveObjectSynchronizer._isDisposed := true |} in
  let st := LiveObjectSynchronizer.initial in
  let r := LiveObjectSynchronizer.constructor Examples.all_connected "o1"
             0%nat 0%nat (fun _ => Normal (Examples.v_ 1))
             (fun _ _ _ => Normal tt) st in
  SetInterval (LiveObjectSynchronizer.updateInterval st) ∈ r.2
  /\ LiveObjectSynchronizer.dispose f r.1.2
     = (disposed, st,
        [ClearInterval
           (Some {| interval := LiveObjectSynchronizer.updateInterval st |})])
  /\ LiveObjectSynchronizer.dispose disposed st = (disposed, st, []).
Proof.
  intros f disposed st r.
  apply (construct_then_dispose Examples.all_connected "o1" 0%nat 0%nat
           (fun _ => Normal (Examples.v_ 1)) (fun _ _ _ => Normal tt)
           st r.1.2 f r.2); reflexivity.
Defined.

(** X21. Building a facade on a container, or disposing one of its
    facades, does nothing to the synchronizers of the other containers. *)
Theorem other_containers_untouched
    (runtimes : Runtimes) (id : string) (runtime : RuntimeRef)
    (c c' : ContainerRuntimeRef) (getState : bool -> Completion JsValue)
    (updateState : bool -> JsValue -> option string -> Completion unit)
    (f : LiveObjectSynchronizer.t) (st : LiveObjectSynchronizer.Statics) :
  c' ≠ c ->
  LiveObjectSynchronizer._containerRuntime f = c ->
  LiveObjectSynchronizer._synchronizers
    (LiveObjectSynchronizer.constructor runtimes id runtime c
       getState updateState st).1.2 !! c'
  = LiveObjectSynchronizer._synchronizers st !! c'
  /\ LiveObjectSynchronizer._synchronizers
       (LiveObjectSynchronizer.dispose f st).1.2 !! c'
     = LiveObjectSynchronizer._synchronizers st !! c'.
Proof.
  intros Hne Hf. split.
  - rewrite constructor_run. simpl. by rewrite lookup_insert_ne.
  - unfold LiveObjectSynchronizer.dispose, LiveObjectSynchronizer.unregisterObject.
    destruct (LiveObjectSynchronizer._isDisposed f); simpl; [done|].
    rewrite Hf.
    destruct (LiveObjectSynchronizer._synchronizers st !! c) as [s|]; [|done].
    destruct (unregisterObject (LiveObjectSynchronizer._id f) s)
      as [[[[]|err] s'] tr]; simpl.
    + by rewrite lookup_delete_ne.
    + by rewrite lookup_insert_ne.
    + by rewrite lookup_insert_ne.
Qed.

Lemma other_containers_untouched_witness :
  let st := Page.statics Scenarios.page_with_o1 in
  let f := {| LiveObjectSynchronizer._id := "o1";
              LiveObjectSynchronizer._containerRuntime := 1%nat;
              LiveObjectSynchronizer._isDisposed := false |} in
  LiveObjectSynchronizer._synchronizers
    (LiveObjectSynchronizer.constructor Examples.all_connected "o1" 0%nat 1%nat
       (fun _ => Normal JNull) (fun _ _ _ => Normal tt) st).1.2 !! 0%nat
  = LiveObjectSynchronizer._synchronizers st !! 0%nat
  /\ LiveObjectSynchronizer._synchronizers
       (LiveObjectSynchronizer.dispose f st).1.2 !! 0%nat
     = LiveObjectSynchronizer._synchronizers st !! 0%nat.
Proof.
  intros st f.
  apply (other_containers_untouched Examples.all_connected "o1" 0%nat
           1%nat 0%nat (fun _ => Normal JNull) (fun _ _ _ => Normal tt) f st);
    [done | reflexivity].
Defined.

(** * The sample application *)

(** ** Notifications *)

Lemma findIndex_none {A} (p : A -> bool) (arr : list A) :
  (forall x, x ∈ arr -> p x = false) -> LiveNotifications.findIndex p arr = -1.
Proof.
  induction arr as [|x arr IH]; intros Hnone; [done|]. simpl.
  rewrite (Hnone x) by (apply elem_of_cons; by left).
  rewrite IH; [done|]. intros y Hy. apply Hnone, elem_of_cons. by right.
Qed.

Lemma findIndex_first {A} (p : A -> bool) (before after : list A) (x : A) :
  (forall y, y ∈ before -> p y = false) ->
  p x = true ->
  LiveNotifications.findIndex p (before ++ x :: after)
  = Z.of_nat (length before).
Proof.
  intros Hnone Hx. induction before as [|y before IH]; simpl.
  - by rewrite Hx.
  - rewrite (Hnone y) by (apply elem_of_cons; by left).
    rewrite IH by (intros z Hz; apply Hnone, elem_of_cons; by right).
    destruct (Z.ltb_spec (Z.of_nat (length before)) 0); lia.
Qed.

Lemma splice_one_middle {A} (before after : list A) (x : A) :
  LiveNotifications.splice_one (length before) (before ++ x :: after)
  = before ++ after.
Proof.
  unfold LiveNotifications.splice_one.
  rewrite take_app_length, drop_app_ge by lia.
  by replace (S (length before) - length before)%nat with 1%nat by lia.
Qed.

(** X22. When the timer of a notification fires, the first notification
    with its identifier is removed, from the reference and from what is
    rendered alike, and every other notification stays, in order, also
    those added while it was on display. *)
Theorem expire_removes_the_notification
    (notificationId : string) (st : LiveNotifications.t)
    (before after : list LiveNotifications.Notification)
    (n : LiveNotifications.Notification) :
  LiveNotifications.notificationsRef st = before ++ n :: after ->
  LiveNotifications.id n = notificationId ->
  (forall m, m ∈ before -> LiveNotifications.id m ≠ notificationId) ->
  LiveNotifications.expire notificationId st
  = {| LiveNotifications.notificationsRef := before ++ after;
       LiveNotifications.notifications := before ++ after |}.
Proof.
  intros Href Hn Hbefore. unfold LiveNotifications.expire. rewrite Href.
  rewrite (findIndex_first _ before after n).
  - assert ((0 <=? Z.of_nat (length before)) = true) as ->
      by (apply Z.leb_le; lia).
    by rewrite Nat2Z.id, splice_one_middle.
  - intros m Hm. by apply String.eqb_neq, Hbefore.
  - by apply String.eqb_eq.
Qed.

Lemma expire_removes_the_notification_witness :
  LiveNotifications.expire "notification2" Scenarios.three_notifications
  = {| LiveNotifications.notificationsRef :=
         [{| LiveNotifications.id := "notification1";
             LiveNotifications.text := "a" |}]
         ++ [{| LiveNotifications.id := "notification3";
                LiveNotifications.text := "c" |}];
       LiveNotifications.notifications :=
         [{| LiveNotifications.id := "notification1";
             LiveNotifications.text := "a" |}]
         ++ [{| LiveNotifications.id := "notification3";
                LiveNotifications.text := "c" |}] |}.
Proof.
  apply (expire_removes_the_notification "notification2"
           Scenarios.three_notifications
           [{| LiveNotifications.id := "notification1";
               LiveNotifications.text := "a" |}]
           [{| LiveNotifications.id := "notification3";
               LiveNotifications.text := "c" |}]
           {| LiveNotifications.id := "notification2";
              LiveNotifications.text := "b" |}); [reflexivity | reflexivity |].
  intros m Hm. apply elem_of_cons in Hm as [->|Hm]; [done|].
  by apply elem_of_nil in Hm.
Defined.

(** X23. When the timer of a notification fires and no notification has
    its identifier any more, nothing changes. *)
Theorem expire_unknown_notification
    (notificationId : string) (st : LiveNotifications.t) :
  (forall m, m ∈ LiveNotifications.notificationsRef st ->
             LiveNotifications.id m ≠ notificationId) ->
  LiveNotifications.expire notificationId st = st.
Proof.
  intros Hnone. unfold LiveNotifications.expire.
  rewrite findIndex_none; [done|].
  intros m Hm. by apply String.eqb_neq, Hnone.
Qed.

Lemma expire_unknown_notification_witness :
  LiveNotifications.expire "notification2"
    (LiveNotifications.expire "notification2" Scenarios.three_notifications)
  = LiveNotifications.expire "notification2" Scenarios.three_notifications.
Proof.
  apply expire_unknown_notification.
  intros m Hm. apply elem_of_cons in Hm as [->|Hm]; [done|].
  apply elem_of_cons in Hm as [->|Hm]; [done|]. by apply elem_of_nil in Hm.
Defined.

(** ** Inking controls *)

(** X24. After a tool is selected it is the selected tool, and the tool
    of the inking manager if the two agreed before. Selecting the tool
    that is already selected toggles inking; selecting another tool
    enables inking, and selecting that tool once more disables it. *)
Theorem onSelectTool_selects_and_toggles {InkingTool : Type}
    `{EqDecision InkingTool} (tool : InkingTool)
    (st : InkingControls.t InkingTool) :
  let st1 := InkingControls.onSelectTool tool st in
  InkingControls.selectedTool st1 = tool
  /\ (InkingControls.inkingManager_tool st = InkingControls.selectedTool st ->
      InkingControls.inkingManager_tool st1 = tool)
  /\ (tool = InkingControls.selectedTool st ->
      InkingControls.isEnabled st1 = negb (InkingControls.isEnabled st))
  /\ (tool ≠ InkingControls.selectedTool st ->
      InkingControls.isEnabled st1 = true
      /\ InkingControls.isEnabled (InkingControls.onSelectTool tool st1) = false).
Proof.
  intros st1. subst st1. unfold InkingControls.onSelectTool.
  destruct st as [mt sel en]. simpl.
  destruct (decide (tool ≠ sel)) as [Hne|Heq]; simpl.
  - rewrite bool_decide_eq_false_2 by done. rewrite andb_false_r.
    split_and!; try done. intros _. split; [done|].
    destruct (decide (tool ≠ tool)) as [?|_]; [done|].
    simpl. by rewrite bool_decide_eq_true_2.
  - apply dec_stable in Heq. subst sel.
    rewrite bool_decide_eq_true_2 by done. rewrite andb_true_r.
    by split_and!.
Qed.
